(** * infura-extract: block retrieval, caching and address extraction

    A shallow embedding of [infura-extract.js]: the BigInt-preserving JSON
    codec ([replacer] / [reviver]), the range-argument parser, the
    three-tier block cache with its retrying fetcher ([getBlock]) and the
    extraction loop of [main].

    Conventions of the model.
    - A JavaScript Number is modelled by [Z]; this is exact for integral
      values below 2^53, which covers every block height and attempt
      counter the script manipulates.  Fractional numbers are outside the
      modelled fragment.
    - A JavaScript string is modelled by [string], one [ascii] per code
      unit (code units below 256).
    - A thrown exception is the [None] of an [option], or a dedicated
      constructor of the result type of the function. *)

From Stdlib Require Import ZArith Ascii String List Lia.
From Stdlib Require Import DecimalString DecimalZ DecimalPos DecimalFacts.
From stdpp Require Import gmap strings list.

Local Open Scope string_scope.

(** ** JavaScript values *)

Unset Elimination Schemes.
Inductive JsValue : Type :=
| JsUndefined
| JsNull
| JsBool (b : bool)
| JsNumber (z : Z)
| JsBigInt (z : Z)
| JsString (s : string)
| JsArray (items : list JsValue)
| JsObject (props : list (string * JsValue)).
Set Elimination Schemes.

(** Own-property lookup in the ordered property list of an object. *)
Fixpoint assoc_get (key : string) (props : list (string * JsValue)) : option JsValue :=
  match props with
  | [] => None
  | (k, v) :: rest => if String.eqb k key then Some v else assoc_get key rest
  end.

(** [o[key] = v] on an object: an existing key keeps its position. *)
Fixpoint assoc_set (key : string) (v : JsValue) (props : list (string * JsValue))
  : list (string * JsValue) :=
  match props with
  | [] => [(key, v)]
  | (k, w) :: rest =>
      if String.eqb k key then (k, v) :: rest else (k, w) :: assoc_set key v rest
  end.

(** [value.key] for a named (non-index, non-[length]) property.  Reading a
    property of [undefined] or [null] throws a TypeError; primitives and
    arrays have no such own property. *)
Definition get_prop (value : JsValue) (key : string) : option JsValue :=
  match value with
  | JsUndefined | JsNull => None
  | JsObject props => Some (default JsUndefined (assoc_get key props))
  | _ => Some JsUndefined
  end.

(** ToBoolean. *)
Definition truthy (value : JsValue) : bool :=
  match value with
  | JsUndefined | JsNull => false
  | JsBool b => b
  | JsNumber z => negb (Z.eqb z 0)
  | JsBigInt z => negb (Z.eqb z 0)
  | JsString s => negb (String.eqb s "")
  | JsArray _ | JsObject _ => true
  end.

(** [typeof value === 'object'] *)
Definition typeof_object (value : JsValue) : bool :=
  match value with
  | JsNull | JsArray _ | JsObject _ => true
  | _ => false
  end.

(** [value === 'text'] against a string literal. *)
Definition strict_eq_string (value : JsValue) (text : string) : bool :=
  match value with
  | JsString s => String.eqb s text
  | _ => false
  end.

(** ** Decimal text of integers *)

(** [BigInt.prototype.toString()] and [Number.prototype.toString()] on an
    integral value: the exact decimal digits, with a leading minus sign for
    negative values. *)
Definition decimal_of_Z (z : Z) : string :=
  NilZero.string_of_int (Z.to_int z).

Definition is_digit (c : ascii) : bool :=
  let n := nat_of_ascii c in (48 <=? n)%nat && (n <=? 57)%nat.

Definition is_hex_digit (c : ascii) : bool :=
  let n := nat_of_ascii c in
  is_digit c || ((65 <=? n)%nat && (n <=? 70)%nat) || ((97 <=? n)%nat && (n <=? 102)%nat).

(** StrWhiteSpaceChar, restricted to the code units of the model. *)
Definition is_space (c : ascii) : bool :=
  let n := nat_of_ascii c in
  ((9 <=? n)%nat && (n <=? 13)%nat) || (n =? 32)%nat || (n =? 160)%nat.

Definition digit_value (c : ascii) : Z :=
  let n := Z.of_nat (nat_of_ascii c) in
  if is_digit c then n - 48
  else if (97 <=? n)%Z then n - 87
  else n - 55.

(** Value of a run of digits in the given radix, most significant first. *)
Fixpoint digits_value (radix : Z) (acc : Z) (s : string) : Z :=
  match s with
  | EmptyString => acc
  | String c rest => digits_value radix (acc * radix + digit_value c) rest
  end.

Fixpoint string_forallb (p : ascii -> bool) (s : string) : bool :=
  match s with
  | EmptyString => true
  | String c rest => p c && string_forallb p rest
  end.

(** Longest prefix of [s] whose characters satisfy [p], and the remainder. *)
Fixpoint span (p : ascii -> bool) (s : string) : string * string :=
  match s with
  | EmptyString => (EmptyString, EmptyString)
  | String c rest =>
      if p c then let '(a, b) := span p rest in (String c a, b)
      else (EmptyString, s)
  end.

Fixpoint drop_while (p : ascii -> bool) (s : string) : string :=
  match s with
  | EmptyString => EmptyString
  | String c rest => if p c then drop_while p rest else s
  end.

Fixpoint string_rev_acc (s acc : string) : string :=
  match s with
  | EmptyString => acc
  | String c rest => string_rev_acc rest (String c acc)
  end.

(** [String.prototype.trim] on the white space of the model. *)
Definition trim (s : string) : string :=
  let s1 := drop_while is_space s in
  string_rev_acc (drop_while is_space (string_rev_acc s1 EmptyString)) EmptyString.

(** ** Conversions to BigInt *)

Definition radix_value (radix : Z) (p : ascii -> bool) (digits : string) : option Z :=
  match digits with
  | EmptyString => None
  | _ => if string_forallb p digits then Some (digits_value radix 0 digits) else None
  end.

Definition is_octal_digit (c : ascii) : bool :=
  let n := nat_of_ascii c in (48 <=? n)%nat && (n <=? 55)%nat.

Definition is_binary_digit (c : ascii) : bool :=
  let n := nat_of_ascii c in (48 <=? n)%nat && (n <=? 49)%nat.

(** StringToBigInt: optional white space around either a signed run of
    decimal digits or an unsigned literal with a [0x], [0o] or [0b] prefix;
    the empty text is zero; anything else is a SyntaxError. *)
Definition StringToBigInt (s : string) : option Z :=
  match trim s with
  | EmptyString => Some 0%Z
  | String "0" (String ("x" | "X") digits) => radix_value 16 is_hex_digit digits
  | String "0" (String ("o" | "O") digits) => radix_value 8 is_octal_digit digits
  | String "0" (String ("b" | "B") digits) => radix_value 2 is_binary_digit digits
  | String "-" digits => Z.opp <$> radix_value 10 is_digit digits
  | String "+" digits => radix_value 10 is_digit digits
  | digits => radix_value 10 is_digit digits
  end%char.

Fixpoint join (sep : string) (parts : list string) : string :=
  match parts with
  | [] => EmptyString
  | [p] => p
  | p :: rest => p ++ sep ++ join sep rest
  end.

(** ToString, as reached through ToPrimitive on arrays and plain objects. *)
Fixpoint js_to_string (value : JsValue) : string :=
  match value with
  | JsUndefined => "undefined"
  | JsNull => "null"
  | JsBool b => if b then "true" else "false"
  | JsNumber z => decimal_of_Z z
  | JsBigInt z => decimal_of_Z z
  | JsString s => s
  | JsArray items =>
      join "," (map (fun item =>
                       match item with
                       | JsUndefined | JsNull => EmptyString
                       | _ => js_to_string item
                       end) items)
  | JsObject _ => "[object Object]"
  end.

(** The [BigInt(value)] conversion function; [None] is a thrown TypeError,
    RangeError or SyntaxError. *)
Definition BigInt (value : JsValue) : option Z :=
  match value with
  | JsUndefined | JsNull => None
  | JsBool b => Some (if b then 1 else 0)%Z
  | JsNumber z => Some z
  | JsBigInt z => Some z
  | JsString s => StringToBigInt s
  | JsArray _ | JsObject _ => StringToBigInt (js_to_string value)
  end.

(** ** The codec callbacks *)

(** [replacer(key, value)]: a BigInt becomes a marker object holding its
    decimal text. *)
Definition replacer (key : string) (value : JsValue) : JsValue :=
  match value with
  | JsBigInt z =>
      JsObject [("type", JsString "BigInt"); ("value", JsString (decimal_of_Z z))]
  | _ => value
  end.

(** [reviver(key, value)]: an object carrying the marker becomes the BigInt
    of its [value] property.  [None] when [BigInt(...)] throws. *)
Definition reviver (key : string) (value : JsValue) : option JsValue :=
  if truthy value && typeof_object value
     && match get_prop value "type" with
        | Some t => strict_eq_string t "BigInt"
        | None => false
        end
  then match get_prop value "value" with
       | Some v => JsBigInt <$> BigInt v
       | None => None
       end
  else Some value.

(** ** JSON text: the serializer *)

(** Outcome of a library routine that may throw.  [OutOfFuel] is an
    artefact of the embedding and is shown below never to arise. *)
Inductive Outcome (A : Type) : Type :=
| Done (a : A)
| Throw
| OutOfFuel.
Arguments Done {A} a.
Arguments Throw {A}.
Arguments OutOfFuel {A}.

Definition hex_char (n : nat) : ascii :=
  ascii_of_nat (if (n <? 10)%nat then 48 + n else 87 + n).

(** One code unit inside QuoteJSONString. *)
Definition escape_char (c : ascii) : string :=
  let n := nat_of_ascii c in
  if (n =? 8)%nat then "\b"
  else if (n =? 9)%nat then "\t"
  else if (n =? 10)%nat then "\n"
  else if (n =? 12)%nat then "\f"
  else if (n =? 13)%nat then "\r"
  else if (n =? 34)%nat then String "\" (String "034" EmptyString)
  else if (n =? 92)%nat then "\\"
  else if (n <? 32)%nat then
    String "\" (String "u" (String "0" (String "0"
      (String (hex_char (n / 16)) (String (hex_char (n mod 16)) EmptyString)))))
  else String c EmptyString.

Fixpoint escape_string (s : string) : string :=
  match s with
  | EmptyString => EmptyString
  | String c rest => escape_char c ++ escape_string rest
  end.

Definition QuoteJSONString (s : string) : string :=
  String "034" (escape_string s ++ String "034" EmptyString).

(** The elements of an array: an element that serializes to [undefined]
    is written as [null]. *)
Fixpoint serialize_items (ser : string -> JsValue -> Outcome (option string))
    (index : nat) (items : list JsValue) : Outcome (list string) :=
  match items with
  | [] => Done []
  | item :: rest =>
      match ser (decimal_of_Z (Z.of_nat index)) item with
      | Done text =>
          match serialize_items ser (S index) rest with
          | Done texts => Done (default "null" text :: texts)
          | Throw => Throw
          | OutOfFuel => OutOfFuel
          end
      | Throw => Throw
      | OutOfFuel => OutOfFuel
      end
  end.

(** The members of an object: a property that serializes to [undefined]
    is left out. *)
Fixpoint serialize_props (ser : string -> JsValue -> Outcome (option string))
    (props : list (string * JsValue)) : Outcome (list string) :=
  match props with
  | [] => Done []
  | (key, value) :: rest =>
      match ser key value with
      | Done text =>
          match serialize_props ser rest with
          | Done texts =>
              Done (match text with
                    | Some t => (QuoteJSONString key ++ ":" ++ t) :: texts
                    | None => texts
                    end)
          | Throw => Throw
          | OutOfFuel => OutOfFuel
          end
      | Throw => Throw
      | OutOfFuel => OutOfFuel
      end
  end.

(** SerializeJSONProperty with a replacer function and no indentation: the
    replacer sees every property value before it is written, including
    the members of what it returned. *)
Fixpoint SerializeJSONProperty (fuel : nat) (replacerFn : string -> JsValue -> JsValue)
    (key : string) (value : JsValue) : Outcome (option string) :=
  match fuel with
  | O => OutOfFuel
  | S fuel' =>
      match replacerFn key value with
      | JsUndefined => Done None
      | JsNull => Done (Some "null")
      | JsBool b => Done (Some (if b then "true" else "false"))
      | JsNumber z => Done (Some (decimal_of_Z z))
      | JsBigInt _ => Throw
      | JsString s => Done (Some (QuoteJSONString s))
      | JsArray items =>
          match serialize_items (SerializeJSONProperty fuel' replacerFn) 0 items with
          | Done texts => Done (Some ("[" ++ join "," texts ++ "]"))
          | Throw => Throw
          | OutOfFuel => OutOfFuel
          end
      | JsObject props =>
          match serialize_props (SerializeJSONProperty fuel' replacerFn) props with
          | Done texts => Done (Some ("{" ++ join "," texts ++ "}"))
          | Throw => Throw
          | OutOfFuel => OutOfFuel
          end
      end
  end.

(** Nesting depth of a value, counting a BigInt as the two levels of the
    marker object that replaces it. *)
Fixpoint depth (value : JsValue) : nat :=
  match value with
  | JsArray items => S (foldr (fun item d => Nat.max (depth item) d) 0%nat items)
  | JsObject props => S (foldr (fun kv d => Nat.max (depth (snd kv)) d) 0%nat props)
  | JsBigInt _ => 2
  | _ => 1
  end.

(** [JSON.stringify(value, replacerFn)]. *)
Definition JSON_stringify (value : JsValue) (replacerFn : string -> JsValue -> JsValue)
  : Outcome (option string) :=
  SerializeJSONProperty (S (depth value)) replacerFn EmptyString value.

(** ** JSON text: the parser *)

Definition is_json_space (c : ascii) : bool :=
  let n := nat_of_ascii c in
  (n =? 32)%nat || (n =? 9)%nat || (n =? 10)%nat || (n =? 13)%nat.

Definition skip_ws (s : string) : string := drop_while is_json_space s.

Fixpoint strip_prefix (p s : string) : option string :=
  match p, s with
  | EmptyString, _ => Some s
  | String a p', String b s' => if Ascii.eqb a b then strip_prefix p' s' else None
  | String _ _, EmptyString => None
  end.

(** The character denoted by a one-letter escape. *)
Definition unescape (e : ascii) : option ascii :=
  match e with
  | "034" => Some "034"
  | "\" => Some "\"
  | "/" => Some "/"
  | "b" => Some "008"
  | "f" => Some "012"
  | "n" => Some "010"
  | "r" => Some "013"
  | "t" => Some "009"
  | _ => None
  end%char.

(** The characters of a string literal after its opening quote, up to and
    including the closing quote.  A [\uXXXX] escape of a code unit above
    255 is outside the modelled fragment. *)
Fixpoint parse_string_body (s : string) : option (string * string) :=
  match s with
  | EmptyString => None
  | String c rest =>
      if Ascii.eqb c "034" then Some (EmptyString, rest)
      else if Ascii.eqb c "\" then
        match rest with
        | String "u" (String h1 (String h2 (String h3 (String h4 rest')))) =>
            if is_hex_digit h1 && is_hex_digit h2 && is_hex_digit h3 && is_hex_digit h4 then
              let code := (((digit_value h1 * 16 + digit_value h2) * 16
                            + digit_value h3) * 16 + digit_value h4)%Z in
              if (code <? 256)%Z then
                match parse_string_body rest' with
                | Some (str, r) => Some (String (ascii_of_nat (Z.to_nat code)) str, r)
                | None => None
                end
              else None
            else None
        | String e rest' =>
            match unescape e with
            | Some ch =>
                match parse_string_body rest' with
                | Some (str, r) => Some (String ch str, r)
                | None => None
                end
            | None => None
            end
        | EmptyString => None
        end
      else if (nat_of_ascii c <? 32)%nat then None
      else
        match parse_string_body rest with
        | Some (str, r) => Some (String c str, r)
        | None => None
        end
  end.

(** A number token.  Only integer literals are modelled: a fraction or an
    exponent part is outside the modelled fragment. *)
Definition parse_number (s : string) : option (JsValue * string) :=
  let '(negative, s1) :=
    match s with
    | String c r => if Ascii.eqb c "-" then (true, r) else (false, s)
    | EmptyString => (false, s)
    end in
  let '(digits, rest) := span is_digit s1 in
  match digits with
  | EmptyString => None
  | String d more =>
      if Ascii.eqb d "0" && negb (String.eqb more EmptyString) then None
      else if match rest with
              | String c _ => Ascii.eqb c "." || Ascii.eqb c "e" || Ascii.eqb c "E"
              | EmptyString => false
              end then None
      else
        let n := digits_value 10 0 digits in
        Some (JsNumber (if negative then (- n)%Z else n), rest)
  end.

(** ParseJSONValue and, for the elements of an array and the members of an
    object, the lists that follow an opening bracket.  A repeated key keeps
    its first position and its last value. *)
Fixpoint parse_value (fuel : nat) (s : string) : option (JsValue * string) :=
  match fuel with
  | O => None
  | S fuel' =>
      match skip_ws s with
      | EmptyString => None
      | String c r =>
          if Ascii.eqb c "n" then (fun r' => (JsNull, r')) <$> strip_prefix "ull" r
          else if Ascii.eqb c "t" then (fun r' => (JsBool true, r')) <$> strip_prefix "rue" r
          else if Ascii.eqb c "f" then (fun r' => (JsBool false, r')) <$> strip_prefix "alse" r
          else if Ascii.eqb c "034" then
            match parse_string_body r with
            | Some (str, r') => Some (JsString str, r')
            | None => None
            end
          else if Ascii.eqb c "[" then
            match skip_ws r with
            | EmptyString => None
            | String c1 r1 =>
                if Ascii.eqb c1 "]" then Some (JsArray [], r1)
                else
                  match parse_elements fuel' (String c1 r1) with
                  | Some (items, r') => Some (JsArray items, r')
                  | None => None
                  end
            end
          else if Ascii.eqb c "{" then
            match skip_ws r with
            | EmptyString => None
            | String c1 r1 =>
                if Ascii.eqb c1 "}" then Some (JsObject [], r1)
                else
                  match parse_members fuel' (String c1 r1) with
                  | Some (members, r') =>
                      Some (JsObject (fold_left (fun acc kv => assoc_set (fst kv) (snd kv) acc)
                                                members []), r')
                  | None => None
                  end
            end
          else parse_number (String c r)
      end
  end
with parse_elements (fuel : nat) (s : string) : option (list JsValue * string) :=
  match fuel with
  | O => None
  | S fuel' =>
      match parse_value fuel' s with
      | Some (item, r) =>
          match skip_ws r with
          | EmptyString => None
          | String c r' =>
              if Ascii.eqb c "," then
                match parse_elements fuel' r' with
                | Some (items, r'') => Some (item :: items, r'')
                | None => None
                end
              else if Ascii.eqb c "]" then Some ([item], r')
              else None
          end
      | None => None
      end
  end
with parse_members (fuel : nat) (s : string) : option (list (string * JsValue) * string) :=
  match fuel with
  | O => None
  | S fuel' =>
      match skip_ws s with
      | EmptyString => None
      | String q r =>
          if Ascii.eqb q "034" then
            match parse_string_body r with
            | Some (key, r1) =>
                match skip_ws r1 with
                | EmptyString => None
                | String c2 r2 =>
                    if Ascii.eqb c2 ":" then
                      match parse_value fuel' r2 with
                      | Some (value, r3) =>
                          match skip_ws r3 with
                          | EmptyString => None
                          | String c4 r4 =>
                              if Ascii.eqb c4 "," then
                                match parse_members fuel' r4 with
                                | Some (members, r5) => Some ((key, value) :: members, r5)
                                | None => None
                                end
                              else if Ascii.eqb c4 "}" then Some ([(key, value)], r4)
                              else None
                          end
                      | None => None
                      end
                    else None
                end
            | None => None
            end
          else None
      end
  end.

(** The value denoted by a complete JSON text; [None] is a SyntaxError. *)
Definition parse_json_text (text : string) : option JsValue :=
  match parse_value (S (String.length text)) text with
  | Some (value, rest) =>
      match skip_ws rest with
      | EmptyString => Some value
      | _ => None
      end
  | None => None
  end.

(** The elements of an array, each revived under its index. *)
Fixpoint internalize_elements (revive : string -> JsValue -> option JsValue)
    (index : nat) (items : list JsValue) : option (list JsValue) :=
  match items with
  | [] => Some []
  | item :: rest =>
      match revive (decimal_of_Z (Z.of_nat index)) item with
      | Some item' =>
          match internalize_elements revive (S index) rest with
          | Some rest' => Some (item' :: rest')
          | None => None
          end
      | None => None
      end
  end.

(** The members of an object, each revived under its key; a member revived
    to [undefined] is deleted. *)
Fixpoint internalize_members (revive : string -> JsValue -> option JsValue)
    (props : list (string * JsValue)) : option (list (string * JsValue)) :=
  match props with
  | [] => Some []
  | (k, v) :: rest =>
      match revive k v with
      | Some v' =>
          match internalize_members revive rest with
          | Some rest' =>
              Some (match v' with
                    | JsUndefined => rest'
                    | _ => (k, v') :: rest'
                    end)
          | None => None
          end
      | None => None
      end
  end.

(** InternalizeJSONProperty: the members first, then the holder itself. *)
Fixpoint InternalizeJSONProperty (reviverFn : string -> JsValue -> option JsValue)
    (key : string) (value : JsValue) : option JsValue :=
  match value with
  | JsArray items =>
      match internalize_elements (InternalizeJSONProperty reviverFn) 0 items with
      | Some items' => reviverFn key (JsArray items')
      | None => None
      end
  | JsObject props =>
      match internalize_members (InternalizeJSONProperty reviverFn) props with
      | Some props' => reviverFn key (JsObject props')
      | None => None
      end
  | _ => reviverFn key value
  end.

(** [JSON.parse(text, reviverFn)]; [None] when parsing or the reviver
    throws. *)
Definition JSON_parse (text : string) (reviverFn : string -> JsValue -> option JsValue)
  : option JsValue :=
  match parse_json_text text with
  | Some root => InternalizeJSONProperty reviverFn EmptyString root
  | None => None
  end.

(** ** The codec *)

(** [JSON.stringify(block, replacer)] as the script calls it. *)
Definition encode (block : JsValue) : Outcome (option string) :=
  JSON_stringify block replacer.

(** [JSON.parse(data, reviver)] as the script calls it. *)
Definition decode (data : string) : option JsValue :=
  JSON_parse data reviver.

(** ** The range argument *)

(** A Number produced by [parseInt]. *)
Inductive Num : Type :=
| NaN
| Int (z : Z).

(** [parseInt(input)] without a radix: leading white space, an optional
    sign, an optional [0x] prefix, then the longest run of digits; [NaN]
    when that run is empty. *)
Definition parseInt (input : string) : Num :=
  let s := drop_while is_space input in
  let '(negative, s1) :=
    match s with
    | String "-" r => (true, r)
    | String "+" r => (false, r)
    | _ => (false, s)
    end in
  let '(radix, isdig, s2) :=
    match s1 with
    | String "0" (String ("x" | "X") r) => (16%Z, is_hex_digit, r)
    | _ => (10%Z, is_digit, s1)
    end in
  match fst (span isdig s2) with
  | EmptyString => NaN
  | digits =>
      let n := digits_value radix 0 digits in
      Int (if negative then (- n)%Z else n)
  end.

Definition lower_char (c : ascii) : ascii :=
  let n := nat_of_ascii c in
  if (65 <=? n)%nat && (n <=? 90)%nat then ascii_of_nat (n + 32) else c.

(** [String.prototype.toLowerCase] on the letters A to Z. *)
Fixpoint toLowerCase (s : string) : string :=
  match s with
  | EmptyString => EmptyString
  | String c rest => String (lower_char c) (toLowerCase rest)
  end.

(** [s.includes(c)] for a one-character needle. *)
Fixpoint includes (c : ascii) (s : string) : bool :=
  match s with
  | EmptyString => false
  | String a rest => Ascii.eqb a c || includes c rest
  end.

(** [s.split(c)] for a one-character separator. *)
Fixpoint split (c : ascii) (s : string) : list string :=
  match s with
  | EmptyString => [EmptyString]
  | String a rest =>
      match split c rest with
      | piece :: pieces =>
          if Ascii.eqb a c then EmptyString :: piece :: pieces
          else String a piece :: pieces
      | [] => [String a EmptyString]
      end
  end.

(** The module-level variables [start] and [end] once the range has been
    read: [None] is [null], to be filled in by [main] with the head. *)
Inductive RangeResult : Type :=
| RangeExit1
| RangeOk (start end_ : option Num).

Definition num_is_nan (n : Num) : bool :=
  match n with
  | NaN => true
  | Int _ => false
  end.

(** [a > b] on Numbers: false as soon as either side is NaN. *)
Definition num_gt (a b : Num) : bool :=
  match a, b with
  | Int x, Int y => (y <? x)%Z
  | _, _ => false
  end.

(** [(start !== null && Number.isNaN(start)) || (end !== null && Number.isNaN(end))] *)
Definition range_nan_check (start end_ : option Num) : RangeResult :=
  if match start with Some n => num_is_nan n | None => false end
     || match end_ with Some n => num_is_nan n | None => false end
  then RangeExit1
  else RangeOk start end_.

(** Lines 146 to 187 of the script. *)
Definition parse_range (range : string) : RangeResult :=
  if includes "-" range then
    match split "-" range with
    | startStr :: endStr :: _ =>
        if String.eqb startStr "" || String.eqb endStr "" then RangeExit1
        else
          let start := parseInt startStr in
          if String.eqb (toLowerCase endStr) "max" then
            range_nan_check (Some start) None
          else
            let end_ := parseInt endStr in
            if negb (num_is_nan start) && negb (num_is_nan end_) && num_gt start end_
            then RangeExit1
            else range_nan_check (Some start) (Some end_)
    | _ => RangeExit1
    end
  else if String.eqb (toLowerCase range) "max" then
    range_nan_check None None
  else
    let start := parseInt range in
    range_nan_check (Some start) (Some start).

(** ** The world around the script *)

(** A file-system path, as its list of segments. *)
Definition Path : Type := list string.

(** A rejected provider call: the [statusCode] and [message] of the Error. *)
Record RpcError : Type := { statusCode : option Z; message : string }.

Inductive RpcResult : Type :=
| Resolved (block : JsValue)
| Rejected (error : RpcError).

(** What the script does to the outside, in order.  Diagnostics written to
    the error stream are not recorded. *)
Inductive Event : Type :=
| EvExists (p : Path)
| EvMkdir (p : Path)
| EvRead (p : Path)
| EvWrite (p : Path)
| EvZstd
| EvUnzstd
| EvGetBlock (blockNumber : Z)
| EvGetBlockNumber
| EvSleep (ms : Z)
| EvLog (line : JsValue).

(** The behaviour of the collaborators: which disk operations fail, the
    external compressor, and the provider's answers (the answer to the
    [k]-th block request of the run, and to the head query). *)
Record Env : Type := {
  mkdir_fails : Path -> bool;
  read_fails : Path -> bool;
  write_fails : Path -> bool;
  zstd_compress : string -> option string;
  zstd_decompress : string -> option string;
  provider : nat -> Z -> RpcResult;
  head : option Z
}.

(** The mutable state of a run: the in-memory cache, the directories and
    files on disk, the number of block requests sent and the events so far. *)
Record State : Type := {
  memCache : gmap Z JsValue;
  dirs : gset Path;
  files : gmap Path string;
  rpc_calls : nat;
  trace : list Event
}.

Definition Eff (A : Type) : Type := State -> A * State.

Definition ret {A : Type} (a : A) : Eff A := fun st => (a, st).

Definition bind {A B : Type} (m : Eff A) (k : A -> Eff B) : Eff B :=
  fun st => let '(a, st') := m st in k a st'.

Notation "x <- m ;; k" := (bind m (fun x => k))
  (at level 100, m at next level, right associativity).
Notation "m ;;; k" := (bind m (fun _ => k))
  (at level 100, right associativity).

Definition emit (e : Event) : Eff unit :=
  fun st => (tt, {| memCache := memCache st; dirs := dirs st; files := files st;
                    rpc_calls := rpc_calls st; trace := trace st ++ [e] |}).

(** [memCache.has(k)] and [memCache.get(k)] *)
Definition memCache_get (k : Z) : Eff (option JsValue) :=
  fun st => (memCache st !! k, st).

(** [memCache.set(k, v)] *)
Definition memCache_set (k : Z) (v : JsValue) : Eff unit :=
  fun st => (tt, {| memCache := <[k := v]> (memCache st); dirs := dirs st;
                    files := files st; rpc_calls := rpc_calls st; trace := trace st |}).

(** [fs.existsSync(p)] *)
Definition existsSync (p : Path) : Eff bool :=
  emit (EvExists p) ;;;
  fun st => (bool_decide (p ∈ dirs st) || bool_decide (is_Some (files st !! p)), st).

(** [path.dirname(p)] *)
Definition dirname (p : Path) : Path := removelast p.

(** [path.join(dir, name)] *)
Definition path_join (dir : Path) (name : string) : Path := (dir ++ [name])%list.

(** The address stream: the lines printed with [console.log]. *)
Definition address_lines (events : list Event) : list JsValue :=
  flat_map (fun e => match e with EvLog line => [line] | _ => [] end) events.

(** The provider calls among the events. *)
Definition is_network_event (e : Event) : bool :=
  match e with
  | EvGetBlock _ | EvGetBlockNumber => true
  | _ => false
  end.

Definition initial_state (disk_dirs : gset Path) (disk_files : gmap Path string) : State :=
  {| memCache := ∅; dirs := disk_dirs; files := disk_files; rpc_calls := 0; trace := [] |}.

(** ** Reference definitions for the codec *)

(** The marker object standing for a BigInt, with the given names. *)
Definition marker (kindKey tag : string) (z : Z) : JsValue :=
  JsObject [(kindKey, JsString tag); ("value", JsString (decimal_of_Z z))].

(** The value in which every BigInt has been replaced by its marker. *)
Fixpoint tag_bigints (kindKey tag : string) (value : JsValue) : JsValue :=
  match value with
  | JsBigInt z => marker kindKey tag z
  | JsArray items => JsArray (map (tag_bigints kindKey tag) items)
  | JsObject props =>
      JsObject (map (fun kv => (fst kv, tag_bigints kindKey tag (snd kv))) props)
  | _ => value
  end.

(** The replacer that leaves every value as it is: [JSON.stringify(value)]. *)
Definition no_replacer (key : string) (value : JsValue) : JsValue := value.

(** *** The text of a JSON value *)

(** Values that JSON text denotes: neither [undefined] nor a BigInt
    anywhere, and no key twice in an object. *)
Fixpoint json_value (value : JsValue) : bool :=
  match value with
  | JsUndefined | JsBigInt _ => false
  | JsArray items => forallb json_value items
  | JsObject props =>
      bool_decide (NoDup (map fst props)) && forallb (fun kv => json_value (snd kv)) props
  | _ => true
  end.

Fixpoint json_text (value : JsValue) : string :=
  match value with
  | JsUndefined | JsBigInt _ => EmptyString
  | JsNull => "null"
  | JsBool b => if b then "true" else "false"
  | JsNumber z => decimal_of_Z z
  | JsString s => QuoteJSONString s
  | JsArray items => "[" ++ join "," (map json_text items) ++ "]"
  | JsObject props =>
      "{" ++ join "," (map (fun kv => QuoteJSONString (fst kv) ++ ":" ++ json_text (snd kv)) props)
          ++ "}"
  end.

(** What may follow a value inside a text the serializer wrote. *)
Definition terminated (rest : string) : Prop :=
  match rest with
  | EmptyString => True
  | String c _ => c = ","%char \/ c = "]"%char \/ c = "}"%char
  end.

Definition starts_value (t : string) : Prop :=
  match t with
  | String c _ =>
      is_json_space c = false /\ Ascii.eqb c "]" = false /\ Ascii.eqb c "}" = false
  | EmptyString => False
  end.

Definition reads_back (value : JsValue) : Prop :=
  forall fuel rest, terminated rest -> (String.length (json_text value) < fuel)%nat ->
  parse_value fuel (json_text value ++ rest) = Some (value, rest).

Definition member_text (kv : string * JsValue) : string :=
  QuoteJSONString (fst kv) ++ ":" ++ json_text (snd kv).

(** Whether an object reads as the marker of a BigInt. *)
Definition is_marker (props : list (string * JsValue)) : bool :=
  match assoc_get "type" props with
  | Some t => strict_eq_string t "BigInt"
  | None => false
  end.

(** The values the codec is meant for: what a provider's JSON answer
    becomes once its quantities are BigInts.  No [undefined], no key twice
    in an object, and no object that already reads as the marker. *)
Fixpoint storable (value : JsValue) : bool :=
  match value with
  | JsUndefined => false
  | JsArray items => forallb storable items
  | JsObject props =>
      bool_decide (NoDup (map fst props)) && negb (is_marker props)
      && forallb (fun kv => storable (snd kv)) props
  | _ => true
  end.

Fixpoint has_bigint (value : JsValue) : bool :=
  match value with
  | JsBigInt _ => true
  | JsArray items => existsb has_bigint items
  | JsObject props => existsb (fun kv => has_bigint (snd kv)) props
  | _ => false
  end.

(** ** Reference definitions for the range argument *)




Section Script.

Variable env : Env.

(** [CACHE_DIR] and the [cacheDir] object as the start-up code left them. *)
Variable CACHE_DIR : Path.
Variable cacheDir_ready : bool.
Variable cacheDir_zstdAvailable : bool.

(** [fs.mkdirSync(p, { recursive: true })]; [false] when it throws. *)
Definition mkdirSync (p : Path) : Eff bool :=
  emit (EvMkdir p) ;;;
  fun st =>
    if mkdir_fails env p then (false, st)
    else (true, {| memCache := memCache st; dirs := {[p]} ∪ dirs st; files := files st;
                   rpc_calls := rpc_calls st; trace := trace st |}).

(** [fs.readFileSync(p)]; [None] when it throws. *)
Definition readFileSync (p : Path) : Eff (option string) :=
  emit (EvRead p) ;;;
  fun st => (if read_fails env p then None else files st !! p, st).

(** [fs.writeFileSync(p, data)]; [false] when it throws, as it does when
    [data] is [undefined] or the directory of [p] is missing. *)
Definition writeFileSync (p : Path) (data : option string) : Eff bool :=
  emit (EvWrite p) ;;;
  fun st =>
    match data with
    | Some content =>
        if write_fails env p || negb (bool_decide (dirname p ∈ dirs st)) then (false, st)
        else (true, {| memCache := memCache st; dirs := dirs st;
                       files := <[p := content]> (files st);
                       rpc_calls := rpc_calls st; trace := trace st |})
    | None => (false, st)
    end.

(** [execSync('zstd -3 --stdout', { input })] *)
Definition execSync_zstd (input : string) : Eff (option string) :=
  emit EvZstd ;;; ret (zstd_compress env input).

(** [execSync('zstd -d --stdout', { input }).toString('utf8')] *)
Definition execSync_unzstd (input : string) : Eff (option string) :=
  emit EvUnzstd ;;; ret (zstd_decompress env input).

(** [await web3.eth.getBlock(blockNumber, true)] *)
Definition web3_eth_getBlock (blockNumber : Z) : Eff RpcResult :=
  emit (EvGetBlock blockNumber) ;;;
  fun st => (provider env (rpc_calls st) blockNumber,
             {| memCache := memCache st; dirs := dirs st; files := files st;
                rpc_calls := S (rpc_calls st); trace := trace st |}).

(** [await new Promise(r => setTimeout(r, ms))] *)
Definition sleep (ms : Z) : Eff unit := emit (EvSleep ms).

(** [console.log(line)] *)
Definition console_log (line : JsValue) : Eff unit := emit (EvLog line).

(** ** [getBlock] *)

(** The inner helper of [getBlock]: the two candidate files of a block,
    after making sure their shard directory exists. *)
Definition getShardedPath (blockNum : Z) : Eff (Path * Path) :=
  let shardNumber := (blockNum / 1000000)%Z in
  let shardDir := path_join CACHE_DIR (decimal_of_Z shardNumber) in
  present <- existsSync shardDir ;;
  (if negb present then mkdirSync shardDir ;;; ret tt else ret tt) ;;;
  ret (path_join shardDir ("block-" ++ decimal_of_Z blockNum ++ ".json.zst"),
       path_join shardDir ("block-" ++ decimal_of_Z blockNum ++ ".json")).

(** The body of the first [try]: read, decompress, decode, remember.
    [None] when anything in it throws. *)
Definition read_compressed (blockNumber : Z) (compressedCacheFile : Path)
  : Eff (option JsValue) :=
  compressedData <- readFileSync compressedCacheFile ;;
  match compressedData with
  | None => ret None
  | Some data =>
      decompressed <- execSync_unzstd data ;;
      match decompressed with
      | None => ret None
      | Some text =>
          match JSON_parse text reviver with
          | Some block => memCache_set blockNumber block ;;; ret (Some block)
          | None => ret None
          end
      end
  end.

(** The body of the second [try]. *)
Definition read_legacy (blockNumber : Z) (legacyCacheFile : Path)
  : Eff (option JsValue) :=
  data <- readFileSync legacyCacheFile ;;
  match data with
  | None => ret None
  | Some text =>
      match JSON_parse text reviver with
      | Some block => memCache_set blockNumber block ;;; ret (Some block)
      | None => ret None
      end
  end.

(** Lines 225 to 259: the disk tier.  [Some block] when an entry was read
    and decoded. *)
Definition disk_probe (blockNumber : Z) (compressedCacheFile legacyCacheFile : Path)
  : Eff (option JsValue) :=
  if cacheDir_ready then
    fromCompressed <-
      (if cacheDir_zstdAvailable then
         present <- existsSync compressedCacheFile ;;
         if present then read_compressed blockNumber compressedCacheFile else ret None
       else ret None) ;;
    match fromCompressed with
    | Some block => ret (Some block)
    | None =>
        present <- existsSync legacyCacheFile ;;
        if present then read_legacy blockNumber legacyCacheFile else ret None
    end
  else ret None.

(** Lines 277 to 307: write the serialized block, compressed when possible
    and uncompressed otherwise; every failure is swallowed.  [jsonData] is
    [None] for [undefined], which reaches the compressor as empty input. *)
Definition save_to_disk (blockNumber : Z) (jsonData : option string) : Eff unit :=
  paths <- getShardedPath blockNumber ;;
  let '(compressedCacheFile, legacyCacheFile) := paths in
  if cacheDir_zstdAvailable then
    compressed <- execSync_zstd (default EmptyString jsonData) ;;
    written <- match compressed with
               | Some bytes => writeFileSync compressedCacheFile (Some bytes)
               | None => ret false
               end ;;
    if written then ret tt
    else writeFileSync legacyCacheFile jsonData ;;; ret tt
  else
    writeFileSync legacyCacheFile jsonData ;;; ret tt.

(** [Math.min(cap, base * Math.pow(2, attempts))] *)
Definition backoff (cap base : Z) (attempts : nat) : Z :=
  Z.min cap (base * 2 ^ Z.of_nat attempts).

(** The [catch] block of the retry loop, up to its [attempts++]. *)
Definition on_fetch_error (error : RpcError) (attempts : nat) : Eff unit :=
  (if bool_decide (statusCode error = Some 429%Z) || bool_decide (statusCode error = Some 529%Z)
   then sleep (backoff 60000 5000 attempts)
   else ret tt) ;;;
  sleep (backoff 30000 1000 attempts).

(** The TypeError of [JSON.stringify] meeting a BigInt. *)
Definition stringify_error : RpcError :=
  {| statusCode := None; message := "Do not know how to serialize a BigInt" |}.

(** Lines 262 to 365: the retry loop.  [budget] bounds the number of
    iterations of the embedding; the loop itself stops on [attempts < 3]. *)
Fixpoint fetch_loop (budget : nat) (attempts : nat) (blockNumber : Z)
  : Eff (Outcome JsValue) :=
  match budget with
  | O => ret OutOfFuel
  | S budget' =>
      if (attempts <? 3)%nat then
        response <- web3_eth_getBlock blockNumber ;;
        match response with
        | Resolved block =>
            if truthy block && truthy (default JsUndefined (get_prop block "transactions")) then
              memCache_set blockNumber block ;;;
              if cacheDir_ready then
                match JSON_stringify block replacer with
                | Done jsonData =>
                    save_to_disk blockNumber jsonData ;;; ret (Done block)
                | Throw =>
                    on_fetch_error stringify_error attempts ;;;
                    fetch_loop budget' (S attempts) blockNumber
                | OutOfFuel => ret OutOfFuel
                end
              else ret (Done block)
            else
              let attempts := S attempts in
              sleep (backoff 30000 1000 attempts) ;;;
              fetch_loop budget' attempts blockNumber
        | Rejected error =>
            on_fetch_error error attempts ;;;
            fetch_loop budget' (S attempts) blockNumber
        end
      else ret (Done JsNull)
  end.

(** [async function getBlock(blockNumber)] *)
Definition getBlock (blockNumber : Z) : Eff (Outcome JsValue) :=
  cached <- memCache_get blockNumber ;;
  match cached with
  | Some block => ret (Done block)
  | None =>
      paths <- getShardedPath blockNumber ;;
      let '(compressedCacheFile, legacyCacheFile) := paths in
      fromDisk <- disk_probe blockNumber compressedCacheFile legacyCacheFile ;;
      match fromDisk with
      | Some block => ret (Done block)
      | None => fetch_loop 4 0 blockNumber
      end
  end.

(** ** [main] *)

(** [await web3.eth.getBlockNumber()]; [None] when the call rejects. *)
Definition getLatestBlockNumber : Eff (option Z) :=
  emit EvGetBlockNumber ;;; ret (head env).

(** The values a [for ... of] loop draws from [value]; [None] when
    [value] is not iterable. *)
Definition iterate (value : JsValue) : option (list JsValue) :=
  match value with
  | JsArray items => Some items
  | JsString s => Some (map (fun c => JsString (String c EmptyString)) (list_ascii_of_string s))
  | _ => None
  end.

(** The body of the inner loop: print [tx.from], then [tx.to] when it is
    truthy.  [Throw] when [tx] is [null] or [undefined]. *)
Definition extract_tx (tx : JsValue) : Eff (Outcome unit) :=
  match get_prop tx "from", get_prop tx "to" with
  | Some sender, Some recipient =>
      console_log sender ;;;
      if truthy recipient then console_log recipient ;;; ret (Done tt)
      else ret (Done tt)
  | _, _ => ret Throw
  end.

Fixpoint for_each_tx (txs : list JsValue) : Eff (Outcome unit) :=
  match txs with
  | [] => ret (Done tt)
  | tx :: rest =>
      r <- extract_tx tx ;;
      match r with
      | Done _ => for_each_tx rest
      | Throw => ret Throw
      | OutOfFuel => ret OutOfFuel
      end
  end.

(** Lines 404 to 415: what [main] does with the result of [getBlock]. *)
Definition extract_block (block : JsValue) : Eff (Outcome unit) :=
  if negb (truthy block) then ret (Done tt)
  else
    match get_prop block "transactions" with
    | Some transactions =>
        if truthy transactions then
          match iterate transactions with
          | Some txs => for_each_tx txs
          | None => ret Throw
          end
        else ret (Done tt)
    | None => ret Throw
    end.

(** One iteration of the outer loop. *)
Definition process_block (i : Z) : Eff (Outcome unit) :=
  r <- getBlock i ;;
  match r with
  | Done block => extract_block block
  | Throw => ret Throw
  | OutOfFuel => ret OutOfFuel
  end.

(** [for (let i = start; i <= end; i++)], by the number of iterations
    left. *)
Fixpoint block_loop (count : nat) (i : Z) : Eff (Outcome unit) :=
  match count with
  | O => ret (Done tt)
  | S count' =>
      r <- process_block i ;;
      match r with
      | Done _ => block_loop count' (i + 1)%Z
      | Throw => ret Throw
      | OutOfFuel => ret OutOfFuel
      end
  end.

(** [if (bound > latestBlock) bound = latestBlock] *)
Definition clamp (latestBlock : Z) (bound : Num) : Num :=
  if num_gt bound (Int latestBlock) then Int latestBlock else bound.

(** Iterations of [for (let i = start; i <= end; i++)]. *)
Definition iterations (start end_ : Num) : nat :=
  match start, end_ with
  | Int a, Int b => Z.to_nat (b - a + 1)
  | _, _ => 0
  end.

(** [async function main()]: the result is the exit code of the process. *)
Definition main (start end_ : option Num) : Eff (Outcome Z) :=
  latest <- getLatestBlockNumber ;;
  match latest with
  | None => ret (Done 1%Z)
  | Some latestBlock =>
      let start := clamp latestBlock (default (Int latestBlock) start) in
      let end_ := clamp latestBlock (default (Int latestBlock) end_) in
      match start with
      | Int first =>
          r <- block_loop (iterations start end_) first ;;
          match r with
          | Done _ => ret (Done 0%Z)
          | Throw => ret Throw
          | OutOfFuel => ret OutOfFuel
          end
      | NaN => ret (Done 0%Z)
      end
  end.

(** The names in the [NETWORKS] table. *)
Definition NETWORKS : list string :=
  ["ethereum"; "linea"; "polygon"; "base"; "blast"; "optimism"; "arbitrum"; "palm";
   "avalanche"; "starknet"; "celo"; "zksync"; "bsc"; "mantle"; "opbnb"; "scroll";
   "swellchain"; "unichain"].

(** The script from its first line: argument count, network name, API
    key, range argument, then [main].  The cache directory set-up between
    the network check and the key check is represented by its outcome,
    [cacheDir_ready] and [cacheDir_zstdAvailable]. *)
Definition script (argv : list string) (MM_API_KEY : option string) : Eff (Outcome Z) :=
  match argv with
  | [_; _; networkArg; range] =>
      let network := toLowerCase networkArg in
      if negb (bool_decide (network ∈ NETWORKS)) then ret (Done 1%Z)
      else if negb (truthy (from_option JsString JsUndefined MM_API_KEY)) then ret (Done 1%Z)
      else
        match parse_range range with
        | RangeExit1 => ret (Done 1%Z)
        | RangeOk start end_ => main start end_
        end
  | _ => ret (Done 1%Z)
  end.

(** ** Reference definitions for the cache and the loop *)

(** The directory and the two candidate files of a block. *)
Definition shard_dir (n : Z) : Path := path_join CACHE_DIR (decimal_of_Z (n / 1000000)).
Definition compressed_path (n : Z) : Path :=
  path_join (shard_dir n) ("block-" ++ decimal_of_Z n ++ ".json.zst").
Definition legacy_path (n : Z) : Path :=
  path_join (shard_dir n) ("block-" ++ decimal_of_Z n ++ ".json").

(** What reading and decoding the compressed entry of a block yields. *)
Definition compressed_entry (st : State) (n : Z) : option JsValue :=
  match files st !! compressed_path n with
  | Some data =>
      if read_fails env (compressed_path n) then None
      else match zstd_decompress env data with
           | Some text => decode text
           | None => None
           end
  | None => None
  end.

Definition legacy_entry (st : State) (n : Z) : option JsValue :=
  match files st !! legacy_path n with
  | Some text => if read_fails env (legacy_path n) then None else decode text
  | None => None
  end.

(** What the disk tier holds for a block in this run. *)
Definition disk_entry (st : State) (n : Z) : option JsValue :=
  if cacheDir_ready then
    match (if cacheDir_zstdAvailable then compressed_entry st n else None) with
    | Some block => Some block
    | None => legacy_entry st n
    end
  else None.

(** The events of a step: [st'] continues the trace of [st]. *)
Definition new_events (st st' : State) (evs : list Event) : Prop :=
  trace st' = (trace st ++ evs)%list.

(** Events a call of [getBlock n] may produce. *)
Definition block_event (n : Z) (e : Event) : Prop :=
  match e with
  | EvLog _ | EvGetBlockNumber => False
  | EvGetBlock k => k = n
  | EvWrite p => p = compressed_path n \/ p = legacy_path n
  | EvMkdir d => d = shard_dir n
  | _ => True
  end.

(** What a step of [getBlock n] may change, with the events it adds. *)
Record Frame (n : Z) (st st' : State) (evs : list Event) : Prop := {
  fr_trace : new_events st st' evs;
  fr_events : Forall (block_event n) evs;
  fr_files : forall p c, files st !! p = Some c ->
      files st' !! p = Some c
      \/ (is_Some (files st' !! p) /\ cacheDir_ready = true
          /\ (p = compressed_path n /\ cacheDir_zstdAvailable = true \/ p = legacy_path n));
  fr_dirs : dirs st ⊆ dirs st' /\ dirs st' ⊆ {[shard_dir n]} ∪ dirs st
}.

(** Events of the part of [getBlock n] that precedes the remote fetch. *)
Definition probe_event (n : Z) (e : Event) : Prop :=
  match e with
  | EvExists _ | EvRead _ | EvUnzstd => True
  | EvMkdir d => d = shard_dir n
  | _ => False
  end.

(** A step of the disk tier: nothing on disk changes, no request is sent,
    and the memory tier gains the block that was found. *)
Definition probe_step (n : Z) (st st' : State) (found : option JsValue) : Prop :=
  files st' = files st /\ dirs st' = dirs st /\ rpc_calls st' = rpc_calls st
  /\ memCache st' = match found with
                    | Some block => <[n := block]> (memCache st)
                    | None => memCache st
                    end
  /\ exists evs, new_events st st' evs /\ Forall (probe_event n) evs.

(** Events of writing a fetched block to disk. *)
Definition save_event (n : Z) (e : Event) : Prop :=
  match e with
  | EvExists _ | EvZstd => True
  | EvMkdir d => d = shard_dir n
  | EvWrite p => p = compressed_path n \/ p = legacy_path n
  | _ => False
  end.

(** *** The retry loop *)

Inductive FailureClass : Type := EmptyResult | RateLimited | OtherError.

(** [block && block.transactions] *)
Definition valid_block (block : JsValue) : bool :=
  truthy block && truthy (default JsUndefined (get_prop block "transactions")).

Definition rate_limited (error : RpcError) : bool :=
  bool_decide (statusCode error = Some 429%Z) || bool_decide (statusCode error = Some 529%Z).

(** How the loop treats an answer: [None] for a block it accepts. *)
Definition classify (response : RpcResult) : option FailureClass :=
  match response with
  | Resolved block => if valid_block block then None else Some EmptyResult
  | Rejected error => if rate_limited error then Some RateLimited else Some OtherError
  end.

(** The delays, in milliseconds, that follow the failure of the attempt
    with 0-based index [k]. *)
Definition delays_after (class : FailureClass) (k : nat) : list Z :=
  match class with
  | EmptyResult => [Z.min 30000 (1000 * 2 ^ Z.of_nat (k + 1))]
  | RateLimited => [Z.min 60000 (5000 * 2 ^ Z.of_nat k); Z.min 30000 (1000 * 2 ^ Z.of_nat k)]
  | OtherError => [Z.min 30000 (1000 * 2 ^ Z.of_nat k)]
  end.

(** The requests and delays of a fetch that is about to make attempt [k]
    with [remaining] attempts left, the provider having answered [c]
    requests so far. *)
Fixpoint schedule (delays : FailureClass -> nat -> list Z) (n : Z) (c k remaining : nat)
  : list Event :=
  match remaining with
  | O => []
  | S remaining' =>
      EvGetBlock n ::
      match classify (provider env c n) with
      | None => []
      | Some class => map EvSleep (delays class k) ++ schedule delays n (S c) (S k) remaining'
      end
  end.

(** The delay the backoff table gives: one per failure, its base doubled
    per attempt. *)
Definition table_delay (class : FailureClass) (k : nat) : list Z :=
  match class with
  | EmptyResult => [Z.min 30000 (1000 * 2 ^ Z.of_nat k)]
  | RateLimited => [Z.min 60000 (5000 * 2 ^ Z.of_nat k)]
  | OtherError => [Z.min 30000 (1000 * 2 ^ Z.of_nat k)]
  end.

(** The value such a fetch returns: the first accepted block, or [null]. *)
Fixpoint fetch_result (n : Z) (c remaining : nat) : JsValue :=
  match remaining with
  | O => JsNull
  | S remaining' =>
      match provider env c n with
      | Resolved block => if valid_block block then block else fetch_result n (S c) remaining'
      | Rejected _ => fetch_result n (S c) remaining'
      end
  end.

Definition is_fetch_event (e : Event) : bool :=
  match e with
  | EvGetBlock _ | EvSleep _ => true
  | _ => false
  end.

(** *** A block that cannot be fetched *)

Definition is_request (e : Event) : bool :=
  match e with
  | EvGetBlock _ => true
  | _ => false
  end.

(** *** The extraction loop *)





(** ** Sample data *)

(** ** Sample data *)

Definition sample_tx (sender recipient : string) : JsValue :=
  JsObject [("from", JsString sender); ("to", JsString recipient);
            ("value", JsBigInt 1000000000000000000000); ("gasPrice", JsBigInt 30000000000);
            ("nonce", JsBigInt 7)].

Definition sample_block (number : Z) (transactions : list JsValue) : JsValue :=
  JsObject [("number", JsBigInt number); ("transactions", JsArray transactions)].

(** A disk that never fails, a compressor that writes one letter before
    its input, and the given provider. *)
Definition sample_env (answers : nat -> Z -> RpcResult) : Env :=
  {| mkdir_fails := fun _ => false;
     read_fails := fun _ => false;
     write_fails := fun _ => false;
     zstd_compress := fun s => Some (String "Z" s);
     zstd_decompress := fun s => match s with
                                 | String "Z" r => Some r
                                 | _ => None
                                 end;
     provider := answers;
     head := Some 20000000%Z |}.

(** Blocks 100 and 102 hold one transaction each, block 101 none. *)
Definition chain (k : nat) (n : Z) : RpcResult :=
  if (n =? 100)%Z then Resolved (sample_block 100 [sample_tx "0xa100" "0xb100"])
  else if (n =? 102)%Z then Resolved (sample_block 102 [sample_tx "0xa102" "0xb102"])
  else Resolved (sample_block n []).

Definition rate_limiting (k : nat) (n : Z) : RpcResult :=
  Rejected {| statusCode := Some 429%Z; message := "Too Many Requests" |}.

Definition no_such_block (k : nat) (n : Z) : RpcResult := Resolved JsNull.

Definition argv_for (range : string) : list string :=
  ["node"; "infura-extract.js"; "ethereum"; range].

Definition big_block : JsValue :=
  JsObject
    [("number", JsBigInt 19000000);
     ("baseFeePerGas", JsBigInt 340282366920938463463374607431768211457);
     ("hash", JsString "0xabc");
     ("transactions",
      JsArray [JsObject [("from", JsString "0xa1"); ("to", JsNull);
                         ("value", JsBigInt 123456789012345678901234567890);
                         ("gasPrice", JsBigInt 18446744073709551617);
                         ("nonce", JsBigInt 7); ("type", JsBigInt 2)]])].


(** A cache directory whose entry for block 7 is not JSON. *)
Definition corrupt_cache : State :=
  initial_state {[ ["cache"; "0"] ]} {[ ["cache"; "0"; "block-7.json"] := "not json" ]}.


(** A cache directory holding block 100 as the script writes it when no
    compressor is available. *)
Definition warm_cache : State :=
  initial_state {[ ["cache"; "0"] ]}
    {[ ["cache"; "0"; "block-100.json"]
       := json_text (tag_bigints "type" "BigInt"
                       (sample_block 100 [sample_tx "0xa100" "0xb100"])) ]}.

(** * Proofs *)

(** ** Strings and decimal digits *)

Lemma append_nil_l (s : string) : EmptyString ++ s = s.
Proof. reflexivity. Qed.

Lemma append_cons (c : ascii) (s t : string) : String c s ++ t = String c (s ++ t).
Proof. reflexivity. Qed.

Lemma append_nil_r (s : string) : s ++ EmptyString = s.
Proof. induction s as [|c s IH]; [done|]. by rewrite append_cons, IH. Qed.

Lemma append_assoc (a b c : string) : (a ++ b) ++ c = a ++ (b ++ c).
Proof. induction a as [|x a IH]; [done|]. by rewrite !append_cons, IH. Qed.

Lemma length_append (a b : string) : String.length (a ++ b) = (String.length a + String.length b)%nat.
Proof. induction a as [|x a IH]; [done|]. rewrite append_cons. simpl. by rewrite IH. Qed.

(** *** Decimal digits *)

Lemma string_of_uint_digits (u : Decimal.uint) :
  string_forallb is_digit (NilEmpty.string_of_uint u) = true.
Proof. induction u; simpl; auto. Qed.

Lemma digits_value_of_uint_acc (u : Decimal.uint) (acc : positive) :
  digits_value 10 (Z.pos acc) (NilEmpty.string_of_uint u) = Z.pos (Pos.of_uint_acc u acc).
Proof.
  revert acc. induction u; intros acc; cbn [NilEmpty.string_of_uint digits_value Pos.of_uint_acc];
    [done|..]; rewrite <- IHu; f_equal;
    match goal with |- context [digit_value ?c] =>
      let v := eval vm_compute in (digit_value c) in change (digit_value c) with v end; lia.
Qed.

Lemma digits_value_of_uint (u : Decimal.uint) :
  digits_value 10 0 (NilEmpty.string_of_uint u) = Z.of_uint u.
Proof.
  unfold Z.of_uint. induction u; simpl; [done|exact IHu|..];
    apply (digits_value_of_uint_acc u).
Qed.

Lemma to_uint_normal (p : positive) : Decimal.unorm (Pos.to_uint p) = Pos.to_uint p.
Proof.
  rewrite <- DecimalPos.Unsigned.to_of, DecimalPos.Unsigned.of_to. reflexivity.
Qed.

Lemma to_uint_no_leading_zero (p : positive) (d : Decimal.uint) :
  Pos.to_uint p <> Decimal.D0 d.
Proof.
  intros H. pose proof (to_uint_normal p) as Hn. rewrite H in Hn.
  rewrite unorm_D0 in Hn.
  assert (d = Decimal.Nil \/ d <> Decimal.Nil) as [->|Hd]
    by (destruct d; auto; right; discriminate).
  - by apply (DecimalPos.Unsigned.to_uint_nonzero p).
  - pose proof (nb_digits_unorm d Hd) as Hle. rewrite Hn in Hle. simpl in Hle. lia.
Qed.

Lemma decimal_of_Z_pos (p : positive) :
  decimal_of_Z (Z.pos p) = NilEmpty.string_of_uint (Pos.to_uint p).
Proof.
  unfold decimal_of_Z. simpl. unfold NilZero.string_of_uint.
  pose proof (DecimalPos.Unsigned.to_uint_nonnil p). by destruct (Pos.to_uint p).
Qed.

Lemma decimal_of_Z_neg (p : positive) :
  decimal_of_Z (Z.neg p) = String "-" (NilEmpty.string_of_uint (Pos.to_uint p)).
Proof.
  unfold decimal_of_Z. simpl. unfold NilZero.string_of_uint.
  pose proof (DecimalPos.Unsigned.to_uint_nonnil p). by destruct (Pos.to_uint p).
Qed.

Lemma of_uint_to_uint (p : positive) : Z.of_uint (Pos.to_uint p) = Z.pos p.
Proof. exact (DecimalZ.of_to (Z.pos p)). Qed.

(** The digits of a positive number: a non-empty run of digits that does
    not start with a zero and whose value is the number. *)
Lemma pos_digits (p : positive) :
  exists c ds, NilEmpty.string_of_uint (Pos.to_uint p) = String c ds
    /\ is_digit c = true /\ c <> "0"%char
    /\ string_forallb is_digit ds = true
    /\ digits_value 10 0 (String c ds) = Z.pos p.
Proof.
  pose proof (string_of_uint_digits (Pos.to_uint p)) as Hall.
  pose proof (digits_value_of_uint (Pos.to_uint p)) as Hval.
  rewrite of_uint_to_uint in Hval.
  pose proof (DecimalPos.Unsigned.to_uint_nonnil p) as Hnil.
  pose proof (to_uint_no_leading_zero p) as Hz.
  destruct (Pos.to_uint p) as [|d|d|d|d|d|d|d|d|d|d]; [done|by destruct (Hz d)|..];
    simpl in Hall |- *; eexists _, _; (split; [reflexivity|]);
    repeat split; try done.
Qed.

(** *** [BigInt] reads back the text of [toString] *)

Lemma string_forallb_impl (p q : ascii -> bool) (s : string) :
  (forall c, p c = true -> q c = true) ->
  string_forallb p s = true -> string_forallb q s = true.
Proof.
  intros Hpq. induction s as [|c s IH]; simpl; [done|].
  intros H. apply andb_true_iff in H as [Hc Hs]. by rewrite (Hpq c Hc), IH.
Qed.

Lemma string_rev_acc_twice (s a b : string) :
  string_rev_acc (string_rev_acc s a) b = string_rev_acc a (s ++ b).
Proof.
  revert a b. induction s as [|c s IH]; intros a b; simpl; [done|].
  rewrite IH. reflexivity.
Qed.

Lemma string_rev_acc_forallb (p : ascii -> bool) (s acc : string) :
  string_forallb p s = true -> string_forallb p acc = true ->
  string_forallb p (string_rev_acc s acc) = true.
Proof.
  revert acc. induction s as [|c s IH]; intros acc; simpl; [done|].
  intros H Hacc. apply andb_true_iff in H as [Hc Hs]. apply IH; [done|].
  simpl. by rewrite Hc.
Qed.

Lemma drop_while_head_false (p : ascii -> bool) (s : string) :
  string_forallb (fun c => negb (p c)) s = true -> drop_while p s = s.
Proof.
  destruct s as [|c s]; simpl; [done|]. intros H.
  apply andb_true_iff in H as [Hc _]. apply negb_true_iff in Hc. by rewrite Hc.
Qed.

Lemma trim_no_space (s : string) :
  string_forallb (fun c => negb (is_space c)) s = true -> trim s = s.
Proof.
  intros H. unfold trim. rewrite (drop_while_head_false _ _ H).
  rewrite drop_while_head_false by (by apply string_rev_acc_forallb).
  rewrite string_rev_acc_twice. simpl. apply append_nil_r.
Qed.

Lemma digit_not_space (c : ascii) : is_digit c = true -> negb (is_space c) = true.
Proof. destruct c as [[] [] [] [] [] [] [] []]; vm_compute; congruence. Qed.

Lemma StringToBigInt_decimal (z : Z) : StringToBigInt (decimal_of_Z z) = Some z.
Proof.
  destruct z as [|p|p].
  - reflexivity.
  - rewrite decimal_of_Z_pos.
    destruct (pos_digits p) as (c & ds & -> & Hc & Hnz & Hds & Hval).
    unfold StringToBigInt. rewrite trim_no_space.
    2:{ apply (string_forallb_impl is_digit); [apply digit_not_space|]. simpl. by rewrite Hc. }
    assert (Hrv : radix_value 10 is_digit (String c ds) = Some (Z.pos p)).
    { unfold radix_value. cbn [string_forallb]. rewrite Hc, Hds. simpl andb. by rewrite Hval. }
    rewrite <- Hrv. clear Hval Hrv.
    destruct c as [[] [] [] [] [] [] [] []]; try reflexivity; try discriminate Hc; congruence.
  - rewrite decimal_of_Z_neg.
    destruct (pos_digits p) as (c & ds & -> & Hc & Hnz & Hds & Hval).
    unfold StringToBigInt. rewrite trim_no_space.
    2:{ assert (Hns : string_forallb (fun c => negb (is_space c)) (String c ds) = true).
        { apply (string_forallb_impl is_digit); [apply digit_not_space|]. simpl. by rewrite Hc. }
        change (negb (is_space "-") && string_forallb (fun c => negb (is_space c)) (String c ds) = true).
        by rewrite Hns. }
    assert (Hrv : radix_value 10 is_digit (String c ds) = Some (Z.pos p)).
    { unfold radix_value. cbn [string_forallb]. rewrite Hc, Hds. simpl andb. by rewrite Hval. }
    cbv iota beta. rewrite Hrv. reflexivity.
Qed.

Lemma BigInt_of_decimal (z : Z) : BigInt (JsString (decimal_of_Z z)) = Some z.
Proof. apply StringToBigInt_decimal. Qed.

(** *** Structural induction on values *)

Lemma JsValue_ind (P : JsValue -> Prop) :
  P JsUndefined -> P JsNull -> (forall b, P (JsBool b)) -> (forall z, P (JsNumber z)) ->
  (forall z, P (JsBigInt z)) -> (forall s, P (JsString s)) ->
  (forall items, Forall P items -> P (JsArray items)) ->
  (forall props, Forall (fun kv => P (snd kv)) props -> P (JsObject props)) ->
  forall v, P v.
Proof.
  intros Hu Hn Hb Hnum Hbig Hs Ha Ho.
  fix IH 1. intros [| |b|z|z|s|items|props].
  - exact Hu.
  - exact Hn.
  - apply Hb.
  - apply Hnum.
  - apply Hbig.
  - apply Hs.
  - apply Ha. induction items as [|i items IHi]; constructor; [apply IH|exact IHi].
  - apply Ho. induction props as [|[k v] props IHp]; constructor; [apply IH|exact IHp].
Qed.

Lemma serialize_items_ext ser1 ser2 (f : JsValue -> JsValue) index items :
  (forall k v, ser1 k v = ser2 k (f v)) ->
  serialize_items ser1 index items = serialize_items ser2 index (map f items).
Proof.
  intros H. revert index. induction items as [|i items IH]; intros index; simpl; [done|].
  by rewrite H, IH.
Qed.

Lemma serialize_props_ext ser1 ser2 (f : JsValue -> JsValue) props :
  (forall k v, ser1 k v = ser2 k (f v)) ->
  serialize_props ser1 props = serialize_props ser2 (map (fun kv => (fst kv, f (snd kv))) props).
Proof.
  intros H. induction props as [|[k v] props IH]; simpl; [done|].
  by rewrite H, IH.
Qed.

Lemma stringify_tagged fuel key value :
  SerializeJSONProperty fuel replacer key value
  = SerializeJSONProperty fuel no_replacer key (tag_bigints "type" "BigInt" value).
Proof.
  revert key value. induction fuel as [|fuel IH]; intros key value; [done|].
  destruct value as [| |b|z|z|s|items|props]; try reflexivity.
  - cbn [SerializeJSONProperty replacer tag_bigints marker no_replacer].
    destruct fuel; reflexivity.
  - cbn [SerializeJSONProperty replacer tag_bigints no_replacer].
    by rewrite (serialize_items_ext _ (SerializeJSONProperty fuel no_replacer)
                  (tag_bigints "type" "BigInt")).
  - cbn [SerializeJSONProperty replacer tag_bigints no_replacer].
    by rewrite (serialize_props_ext _ (SerializeJSONProperty fuel no_replacer)
                  (tag_bigints "type" "BigInt")).
Qed.

Lemma depth_tag_bigints kindKey tag value :
  depth (tag_bigints kindKey tag value) = depth value.
Proof.
  induction value as [| | | | | |items IH|props IH] using JsValue_ind; try reflexivity.
  - simpl. f_equal. induction IH as [|i items Hi _ IHl]; simpl; [done|]. by rewrite Hi, IHl.
  - simpl. f_equal. induction IH as [|[k v] props Hi _ IHl]; simpl in *; [done|]. by rewrite Hi, IHl.
Qed.

Lemma encode_tagged value :
  encode value = JSON_stringify (tag_bigints "type" "BigInt" value) no_replacer.
Proof.
  unfold encode, JSON_stringify. rewrite depth_tag_bigints. apply stringify_tagged.
Qed.

(** *** The serializer never throws under [replacer] *)

Lemma depth_items_le items n :
  (foldr (fun item d => Nat.max (depth item) d) 0 items <= n)%nat <->
  Forall (fun item => (depth item <= n)%nat) items.
Proof.
  induction items as [|i items IH]; simpl.
  - split; [constructor|lia].
  - rewrite Forall_cons, <- IH. lia.
Qed.

Lemma depth_props_le (props : list (string * JsValue)) n :
  (foldr (fun kv d => Nat.max (depth (snd kv)) d) 0 props <= n)%nat <->
  Forall (fun kv => (depth (snd kv) <= n)%nat) props.
Proof.
  induction props as [|i props IH]; simpl.
  - split; [constructor|lia].
  - rewrite Forall_cons, <- IH. lia.
Qed.

Lemma serialize_items_done ser index items :
  Forall (fun item => forall k, exists r, ser k item = Done r) items ->
  exists texts, serialize_items ser index items = Done texts.
Proof.
  intros H. revert index. induction H as [|i items Hi _ IH]; intros index; simpl; [eauto|].
  destruct (Hi (decimal_of_Z (Z.of_nat index))) as [r ->].
  destruct (IH (S index)) as [texts ->]. eauto.
Qed.

Lemma serialize_props_done ser (props : list (string * JsValue)) :
  Forall (fun kv => forall k, exists r, ser k (snd kv) = Done r) props ->
  exists texts, serialize_props ser props = Done texts.
Proof.
  intros H. induction H as [|[k v] props Hi _ IH]; simpl; [eauto|].
  simpl in Hi. destruct (Hi k) as [r ->]. destruct IH as [texts ->]. eauto.
Qed.

Lemma stringify_done value :
  forall fuel key, (depth value <= fuel)%nat ->
  exists r, SerializeJSONProperty fuel replacer key value = Done r
            /\ (value <> JsUndefined -> r <> None).
Proof.
  induction value as [| |b|z|z|s|items IH|props IH] using JsValue_ind;
    intros [|fuel] key Hd; simpl in Hd; try lia;
    try (eexists; split; [reflexivity|congruence]).
  - destruct fuel as [|fuel]; [lia|]. eexists; split; [reflexivity|congruence].
  - cbn [SerializeJSONProperty replacer].
    destruct (serialize_items_done (SerializeJSONProperty fuel replacer) 0 items) as [texts ->].
    { apply le_S_n in Hd. apply depth_items_le in Hd.
      rewrite Forall_forall in IH, Hd |- *. intros i Hi k.
      destruct (IH i Hi fuel k (Hd i Hi)) as (r & -> & _). eauto. }
    eexists; split; [reflexivity|congruence].
  - cbn [SerializeJSONProperty replacer].
    destruct (serialize_props_done (SerializeJSONProperty fuel replacer) props) as [texts ->].
    { apply le_S_n in Hd. apply depth_props_le in Hd.
      rewrite Forall_forall in IH, Hd |- *. intros i Hi k.
      destruct (IH i Hi fuel k (Hd i Hi)) as (r & -> & _). eauto. }
    eexists; split; [reflexivity|congruence].
Qed.

(** [encode] always returns: a text, or [undefined] for [undefined]. *)
Lemma encode_done value :
  exists r, encode value = Done r /\ (value <> JsUndefined -> r <> None).
Proof. apply stringify_done. lia. Qed.

Lemma forallb_Forall {A} (f : A -> bool) (l : list A) :
  forallb f l = true <-> Forall (fun x => f x = true) l.
Proof.
  induction l as [|x l IH]; simpl; [by split; [constructor|]|].
  rewrite andb_true_iff, Forall_cons, IH. done.
Qed.

Lemma serialize_items_text ser index items :
  Forall (fun item => forall k, ser k item = Done (Some (json_text item))) items ->
  serialize_items ser index items = Done (map json_text items).
Proof.
  intros H. revert index. induction H as [|i items Hi _ IH]; intros index; simpl; [done|].
  by rewrite Hi, IH.
Qed.

Lemma serialize_props_text ser (props : list (string * JsValue)) :
  Forall (fun kv => forall k, ser k (snd kv) = Done (Some (json_text (snd kv)))) props ->
  serialize_props ser props
  = Done (map (fun kv => QuoteJSONString (fst kv) ++ ":" ++ json_text (snd kv)) props).
Proof.
  intros H. induction H as [|[k v] props Hi _ IH]; simpl in *; [done|].
  by rewrite Hi, IH.
Qed.

Lemma stringify_json_value value :
  forall fuel key, json_value value = true -> (depth value <= fuel)%nat ->
  SerializeJSONProperty fuel no_replacer key value = Done (Some (json_text value)).
Proof.
  induction value as [| |b|z|z|s|items IH|props IH] using JsValue_ind;
    intros [|fuel] key Hv Hd; simpl in Hd; try lia; try discriminate Hv; try reflexivity.
  - cbn [SerializeJSONProperty no_replacer].
    rewrite serialize_items_text; [done|].
    apply le_S_n in Hd. apply depth_items_le in Hd. simpl in Hv. apply forallb_Forall in Hv.
    rewrite Forall_forall in IH, Hd, Hv |- *. intros i Hi k.
    apply IH; auto.
  - cbn [SerializeJSONProperty no_replacer].
    rewrite serialize_props_text; [done|].
    apply le_S_n in Hd. apply depth_props_le in Hd. simpl in Hv.
    apply andb_true_iff in Hv as [_ Hv]. apply forallb_Forall in Hv.
    rewrite Forall_forall in IH, Hd, Hv |- *. intros i Hi k.
    apply IH; auto.
Qed.

(** *** Reading back what the serializer wrote *)

Lemma parse_escape_char c s :
  parse_string_body (escape_char c ++ s)
  = match parse_string_body s with
    | Some (str, r) => Some (String c str, r)
    | None => None
    end.
Proof. destruct c as [[] [] [] [] [] [] [] []]; reflexivity. Qed.

Lemma parse_escaped_string s rest :
  parse_string_body (escape_string s ++ String "034" rest) = Some (s, rest).
Proof.
  induction s as [|c s IH]; [reflexivity|].
  cbn [escape_string]. rewrite append_assoc, parse_escape_char, IH. reflexivity.
Qed.

Lemma quote_append s rest :
  QuoteJSONString s ++ rest = String "034" (escape_string s ++ String "034" rest).
Proof.
  unfold QuoteJSONString. rewrite append_cons, append_assoc. reflexivity.
Qed.

Lemma span_digits ds rest :
  string_forallb is_digit ds = true -> terminated rest ->
  span is_digit (ds ++ rest) = (ds, rest).
Proof.
  intros Hds Hrest. induction ds as [|c ds IH].
  - rewrite append_nil_l. destruct rest as [|c r]; [done|].
    simpl in *. by destruct Hrest as [->|[->| ->]].
  - rewrite append_cons. simpl in *. apply andb_true_iff in Hds as [-> Hds].
    by rewrite IH.
Qed.

Lemma terminated_not_fraction rest :
  terminated rest ->
  match rest with
  | String c _ => Ascii.eqb c "." || Ascii.eqb c "e" || Ascii.eqb c "E"
  | EmptyString => false
  end = false.
Proof. destruct rest as [|c r]; [done|]. by intros [->|[->| ->]]. Qed.

Lemma digit_not_minus c : is_digit c = true -> Ascii.eqb c "-" = false.
Proof. destruct c as [[] [] [] [] [] [] [] []]; vm_compute; congruence. Qed.

Lemma parse_number_decimal z rest :
  terminated rest -> parse_number (decimal_of_Z z ++ rest) = Some (JsNumber z, rest).
Proof.
  intros Hrest. destruct z as [|p|p].
  - change (decimal_of_Z 0) with "0". rewrite append_cons, append_nil_l.
    unfold parse_number. change (Ascii.eqb "0" "-") with false. cbv iota.
    rewrite (span_digits "0" rest eq_refl Hrest : span is_digit (String "0" rest) = _).
    cbn. by rewrite terminated_not_fraction.
  - rewrite decimal_of_Z_pos.
    destruct (pos_digits p) as (c & ds & -> & Hc & Hnz & Hds & Hval).
    rewrite append_cons. unfold parse_number. rewrite (digit_not_minus c Hc).
    rewrite <- append_cons, span_digits; [|by simpl; rewrite Hc|done].
    apply Ascii.eqb_neq in Hnz. rewrite Hnz. cbn [andb].
    by rewrite terminated_not_fraction, Hval.
  - rewrite decimal_of_Z_neg.
    destruct (pos_digits p) as (c & ds & -> & Hc & Hnz & Hds & Hval).
    rewrite append_cons. unfold parse_number. change (Ascii.eqb "-" "-") with true. cbv iota.
    rewrite span_digits; [|by simpl; rewrite Hc|done].
    apply Ascii.eqb_neq in Hnz. rewrite Hnz. cbn [andb].
    by rewrite terminated_not_fraction, Hval.
Qed.

Lemma number_head c :
  is_digit c = true \/ c = "-"%char ->
  is_json_space c = false /\ Ascii.eqb c "]" = false /\ Ascii.eqb c "}" = false
  /\ Ascii.eqb c "n" = false /\ Ascii.eqb c "t" = false /\ Ascii.eqb c "f" = false
  /\ Ascii.eqb c "034" = false /\ Ascii.eqb c "[" = false /\ Ascii.eqb c "{" = false.
Proof.
  intros [H| ->]; [|by vm_compute].
  destruct c as [[] [] [] [] [] [] [] []]; vm_compute in H |- *; try discriminate H; done.
Qed.

Lemma decimal_head z :
  exists c t, decimal_of_Z z = String c t /\ (is_digit c = true \/ c = "-"%char).
Proof.
  destruct z as [|p|p].
  - exists "0"%char, EmptyString. by split; [|left].
  - rewrite decimal_of_Z_pos. destruct (pos_digits p) as (c & ds & -> & Hc & _). eauto.
  - rewrite decimal_of_Z_neg. eauto.
Qed.

Lemma json_text_starts value : json_value value = true -> starts_value (json_text value).
Proof.
  destruct value as [| |[]|z|z|s|items|props]; intros H; try discriminate H; try by vm_compute.
  simpl. destruct (decimal_head z) as (c & t & -> & Hc).
  destruct (number_head c Hc) as (? & ? & ? & _). done.
Qed.

Lemma skip_ws_starts t rest : starts_value t -> skip_ws (t ++ rest) = t ++ rest.
Proof.
  destruct t as [|c t]; [done|]. intros (Hc & _). rewrite append_cons.
  unfold skip_ws. simpl. by rewrite Hc.
Qed.

Lemma skip_ws_terminated rest : terminated rest -> skip_ws rest = rest.
Proof. destruct rest as [|c r]; [done|]. by intros [->|[->| ->]]. Qed.

Lemma parse_value_number fuel z rest :
  terminated rest ->
  parse_value (S fuel) (decimal_of_Z z ++ rest) = Some (JsNumber z, rest).
Proof.
  intros Hrest. rewrite <- (parse_number_decimal z rest Hrest).
  destruct (decimal_head z) as (c & t & -> & Hc). rewrite append_cons.
  destruct (number_head c Hc) as (Hs & _ & _ & Hn & Ht & Hf & Hq & Ha & Ho).
  cbn [parse_value]. unfold skip_ws. cbn [drop_while]. rewrite Hs, Hn, Ht, Hf, Hq, Ha, Ho.
  reflexivity.
Qed.

Lemma fold_assoc_set_fresh (members acc : list (string * JsValue)) :
  NoDup (map fst (acc ++ members)) ->
  fold_left (fun a kv => assoc_set (fst kv) (snd kv) a) members acc = (acc ++ members)%list.
Proof.
  revert acc. induction members as [|[k v] members IH]; intros acc Hnd; simpl.
  - by rewrite app_nil_r.
  - assert (Hset : assoc_set k v acc = (acc ++ [(k, v)])%list).
    { rewrite map_app in Hnd. apply NoDup_app in Hnd as (_ & Hdis & _).
      assert (Hk : k ∉ map fst acc) by (intros Hin; apply (Hdis k Hin); simpl; left).
      clear -Hk. induction acc as [|[k' w] acc IHa]; simpl; [done|].
      simpl in Hk. apply not_elem_of_cons in Hk as [Hne Hk].
      destruct (String.eqb k' k) eqn:E; [apply String.eqb_eq in E; congruence|].
      by rewrite IHa. }
    rewrite Hset, IH; rewrite <- app_assoc; simpl; done.
Qed.

Lemma parse_elements_texts items :
  items <> [] -> Forall reads_back items ->
  forall fuel rest,
    (String.length (join "," (map json_text items)) + 1 < fuel)%nat ->
    parse_elements fuel (join "," (map json_text items) ++ String "]" rest) = Some (items, rest).
Proof.
  intros Hne Hall. induction Hall as [|i items Hi Hall IH]; [done|]. clear Hne.
  intros [|fuel] rest Hlen; [lia|].
  destruct items as [|i2 more].
  - simpl in Hlen |- *. rewrite Hi. 2: by (simpl; auto). 2: lia. reflexivity.
  - change (join "," (map json_text (i :: i2 :: more)))
      with (json_text i ++ "," ++ join "," (map json_text (i2 :: more))) in *.
    set (J := join "," (map json_text (i2 :: more))) in *.
    rewrite !length_append in Hlen. change (String.length ",") with 1%nat in Hlen.
    rewrite !append_assoc. rewrite append_cons, append_nil_l.
    cbn [parse_elements]. rewrite Hi; [|simpl; auto|lia].
    cbn [skip_ws drop_while]. change (is_json_space ",") with false. cbv iota.
    change (Ascii.eqb "," ",") with true. cbv iota.
    rewrite IH; [done|done|lia].
Qed.

Lemma parse_members_texts (props : list (string * JsValue)) :
  props <> [] -> Forall (fun kv => reads_back (snd kv)) props ->
  forall fuel rest,
    (String.length (join "," (map member_text props)) + 1 < fuel)%nat ->
    parse_members fuel (join "," (map member_text props) ++ String "}" rest) = Some (props, rest).
Proof.
  intros Hne Hall. induction Hall as [|[k v] props Hi Hall IH]; [done|]. clear Hne.
  intros [|fuel] rest Hlen; [lia|]. simpl in Hi.
  destruct props as [|kv2 more].
  - change (join "," (map member_text [(k, v)]))
      with (QuoteJSONString k ++ ":" ++ json_text v) in *.
    rewrite !length_append in Hlen. change (String.length ":") with 1%nat in Hlen.
    rewrite append_assoc, quote_append.
    cbn [parse_members skip_ws drop_while]. change (is_json_space "034") with false. cbv iota.
    change (Ascii.eqb "034" "034") with true. cbv iota.
    rewrite parse_escaped_string. rewrite append_assoc, append_cons, append_nil_l.
    cbn [skip_ws drop_while]. change (is_json_space ":") with false. cbv iota.
    change (Ascii.eqb ":" ":") with true. cbv iota.
    rewrite Hi; [|simpl; auto|lia]. reflexivity.
  - change (join "," (map member_text ((k, v) :: kv2 :: more)))
      with (member_text (k, v) ++ "," ++ join "," (map member_text (kv2 :: more))) in *.
    set (J := join "," (map member_text (kv2 :: more))) in *.
    unfold member_text in Hlen |- *. simpl fst in *. simpl snd in *.
    rewrite !length_append in Hlen. change (String.length ",") with 1%nat in Hlen.
    change (String.length ":") with 1%nat in Hlen.
    rewrite !append_assoc, quote_append.
    cbn [parse_members skip_ws drop_while]. change (is_json_space "034") with false. cbv iota.
    change (Ascii.eqb "034" "034") with true. cbv iota.
    rewrite parse_escaped_string. rewrite append_cons, append_nil_l.
    cbn [skip_ws drop_while]. change (is_json_space ":") with false. cbv iota.
    change (Ascii.eqb ":" ":") with true. cbv iota.
    rewrite append_cons, append_nil_l.
    rewrite Hi; [|simpl; auto|lia].
    cbn [skip_ws drop_while]. change (is_json_space ",") with false. cbv iota.
    change (Ascii.eqb "," ",") with true. cbv iota.
    rewrite IH; [done|done|lia].
Qed.

Lemma join_starts (texts : list string) :
  texts <> [] -> Forall starts_value texts -> starts_value (join "," texts).
Proof.
  intros Hne H. destruct H as [|t texts Ht _]; [done|].
  destruct texts as [|t2 more]; [done|].
  change (join "," (t :: t2 :: more)) with (t ++ "," ++ join "," (t2 :: more)).
  destruct t as [|c t]; [done|]. by rewrite append_cons.
Qed.

Lemma parse_value_reads_back value : json_value value = true -> reads_back value.
Proof.
  induction value as [| |b|z|z|s|items IH|props IH] using JsValue_ind;
    intros Hv; try discriminate Hv; intros [|fuel] rest Hrest Hlen; try lia.
  - reflexivity.
  - destruct b; reflexivity.
  - by apply parse_value_number.
  - cbn [json_text]. rewrite quote_append. cbn [parse_value skip_ws drop_while].
    change (is_json_space "034") with false. cbv iota.
    change (Ascii.eqb "034" "n") with false. change (Ascii.eqb "034" "t") with false.
    change (Ascii.eqb "034" "f") with false. change (Ascii.eqb "034" "034") with true.
    cbv iota. by rewrite parse_escaped_string.
  - simpl in Hv. apply forallb_Forall in Hv.
    assert (Hrb : Forall reads_back items).
    { rewrite Forall_forall in IH, Hv |- *. auto. }
    destruct items as [|i items]; [reflexivity|].
    cbn [json_text] in Hlen |- *.
    set (J := join "," (map json_text (i :: items))) in *.
    rewrite !length_append in Hlen. change (String.length "[") with 1%nat in Hlen.
    change (String.length "]") with 1%nat in Hlen.
    rewrite !append_assoc, append_cons, append_nil_l. rewrite (append_cons "]"), append_nil_l.
    cbn [parse_value skip_ws drop_while]. change (is_json_space "[") with false. cbv iota.
    change (Ascii.eqb "[" "n") with false. change (Ascii.eqb "[" "t") with false.
    change (Ascii.eqb "[" "f") with false. change (Ascii.eqb "[" "034") with false.
    change (Ascii.eqb "[" "[") with true. cbv iota.
    assert (Hstart : starts_value J).
    { apply join_starts; [done|]. apply Forall_map. simpl.
      eapply Forall_impl; [exact Hv|]. intros x Hx. by apply json_text_starts. }
    rewrite (skip_ws_starts J (String "]" rest) Hstart).
    pose proof (parse_elements_texts (i :: items) ltac:(done) Hrb fuel rest ltac:(fold J; lia)) as Hp.
    fold J in Hp. destruct J as [|c1 J1]; [done|]. rewrite append_cons in Hp |- *.
    destruct Hstart as (_ & -> & _). by rewrite Hp.
  - simpl in Hv. apply andb_true_iff in Hv as [Hnd Hv]. apply bool_decide_eq_true in Hnd.
    apply forallb_Forall in Hv.
    assert (Hrb : Forall (fun kv => reads_back (snd kv)) props).
    { rewrite Forall_forall in IH, Hv |- *. auto. }
    destruct props as [|kv props]; [reflexivity|].
    cbn [json_text] in Hlen |- *. fold member_text in Hlen |- *.
    change (map (fun kv0 : string * JsValue => QuoteJSONString kv0.1 ++ ":" ++ json_text kv0.2))
      with (map member_text) in *.
    set (J := join "," (map member_text (kv :: props))) in *.
    rewrite !length_append in Hlen. change (String.length "{") with 1%nat in Hlen.
    change (String.length "}") with 1%nat in Hlen.
    rewrite !append_assoc, append_cons, append_nil_l. rewrite (append_cons "}"), append_nil_l.
    cbn [parse_value skip_ws drop_while]. change (is_json_space "{") with false. cbv iota.
    change (Ascii.eqb "{" "n") with false. change (Ascii.eqb "{" "t") with false.
    change (Ascii.eqb "{" "f") with false. change (Ascii.eqb "{" "034") with false.
    change (Ascii.eqb "{" "[") with false. change (Ascii.eqb "{" "{") with true. cbv iota.
    assert (Hstart : starts_value J).
    { apply join_starts; [done|]. apply Forall_map. apply Forall_forall. intros x _.
      unfold member_text. by rewrite quote_append. }
    rewrite (skip_ws_starts J (String "}" rest) Hstart).
    pose proof (parse_members_texts (kv :: props) ltac:(done) Hrb fuel rest ltac:(fold J; lia)) as Hp.
    fold J in Hp. destruct J as [|c1 J1]; [done|]. rewrite append_cons in Hp |- *.
    destruct Hstart as (_ & _ & ->). rewrite Hp.
    rewrite (fold_assoc_set_fresh (kv :: props) []); [done|]. exact Hnd.
Qed.

(** [JSON.parse] reads the text of a JSON value back as that value. *)
Lemma parse_json_text_of value :
  json_value value = true -> parse_json_text (json_text value) = Some value.
Proof.
  intros Hv. unfold parse_json_text.
  pose proof (parse_value_reads_back value Hv (S (String.length (json_text value)))
                EmptyString I ltac:(lia)) as H.
  rewrite append_nil_r in H. by rewrite H.
Qed.

Lemma storable_json_value value :
  storable value = true -> json_value (tag_bigints "type" "BigInt" value) = true.
Proof.
  induction value as [| |b|z|z|s|items IH|props IH] using JsValue_ind;
    intros Hs; try discriminate Hs; try reflexivity.
  - simpl in Hs |- *. apply forallb_Forall in Hs. apply forallb_Forall.
    apply Forall_map. rewrite Forall_forall in IH, Hs |- *. auto.
  - simpl in Hs |- *. apply andb_true_iff in Hs as [Hs Hall].
    apply andb_true_iff in Hs as [Hnd _]. apply andb_true_iff. split.
    + rewrite map_map. simpl. exact Hnd.
    + apply forallb_Forall in Hall. apply forallb_Forall.
      apply Forall_map. rewrite Forall_forall in IH, Hall |- *. simpl. auto.
Qed.

Lemma reviver_marker key z :
  reviver key (marker "type" "BigInt" z) = Some (JsBigInt z).
Proof.
  assert (Ht : get_prop (marker "type" "BigInt" z) "type" = Some (JsString "BigInt"))
    by reflexivity.
  assert (Hv : get_prop (marker "type" "BigInt" z) "value" = Some (JsString (decimal_of_Z z)))
    by reflexivity.
  unfold reviver. rewrite Ht, Hv.
  change (truthy (marker "type" "BigInt" z) && typeof_object (marker "type" "BigInt" z)
          && strict_eq_string (JsString "BigInt") "BigInt") with true.
  cbv iota. by rewrite BigInt_of_decimal.
Qed.

Lemma reviver_plain key value :
  match value with
  | JsObject props => is_marker props = false
  | _ => True
  end -> reviver key value = Some value.
Proof.
  destruct value as [| |[]|z|z|s|items|props]; try reflexivity.
  - unfold reviver. simpl. by destruct (negb _).
  - unfold reviver. simpl. by destruct (negb _).
  - unfold reviver. simpl. by destruct (negb _).
  - unfold is_marker. intros H. unfold reviver.
    cbn [truthy typeof_object andb get_prop].
    destruct (assoc_get "type" props) as [t|]; cbn [from_option id]; [by rewrite H|reflexivity].
Qed.

Lemma internalize_elements_tagged revive index items :
  Forall (fun item => forall k, revive k (tag_bigints "type" "BigInt" item) = Some item) items ->
  internalize_elements revive index (map (tag_bigints "type" "BigInt") items) = Some items.
Proof.
  intros H. revert index. induction H as [|i items Hi _ IH]; intros index; simpl; [done|].
  by rewrite Hi, IH.
Qed.

Lemma internalize_members_tagged revive (props : list (string * JsValue)) :
  Forall (fun kv => snd kv <> JsUndefined
                    /\ forall k, revive k (tag_bigints "type" "BigInt" (snd kv)) = Some (snd kv)) props ->
  internalize_members revive
    (map (fun kv => (fst kv, tag_bigints "type" "BigInt" (snd kv))) props) = Some props.
Proof.
  intros H. induction H as [|[k v] props [Hu Hi] _ IH]; simpl in *; [done|].
  rewrite Hi, IH. by destruct v.
Qed.

Lemma internalize_tagged value :
  storable value = true ->
  forall key, InternalizeJSONProperty reviver key (tag_bigints "type" "BigInt" value) = Some value.
Proof.
  induction value as [| |b|z|z|s|items IH|props IH] using JsValue_ind;
    intros Hs key; try discriminate Hs.
  - reflexivity.
  - by apply reviver_plain.
  - by apply reviver_plain.
  - change (tag_bigints "type" "BigInt" (JsBigInt z)) with (marker "type" "BigInt" z).
    unfold marker at 1. cbn [InternalizeJSONProperty internalize_members].
    change (reviver "type" (JsString "BigInt")) with (Some (JsString "BigInt")).
    rewrite (reviver_plain "value" (JsString (decimal_of_Z z)) I). cbv iota.
    apply reviver_marker.
  - by apply reviver_plain.
  - simpl in Hs. apply forallb_Forall in Hs.
    cbn [tag_bigints InternalizeJSONProperty].
    rewrite internalize_elements_tagged; [by apply reviver_plain|].
    rewrite Forall_forall in IH, Hs |- *. auto.
  - simpl in Hs. apply andb_true_iff in Hs as [Hs Hall].
    apply andb_true_iff in Hs as [_ Hm]. apply negb_true_iff in Hm.
    apply forallb_Forall in Hall.
    cbn [tag_bigints InternalizeJSONProperty].
    rewrite internalize_members_tagged; [by apply reviver_plain|].
    rewrite Forall_forall in IH, Hall |- *. intros kv Hkv. split; [|auto].
    specialize (Hall kv Hkv). by destruct (snd kv).
Qed.

(** C1 (round trip).  For every block record [x] -- a value with no
    [undefined] in it, no object listing a key twice and no object whose own
    [type] property is the string [BigInt] -- [encode x] is a text, [decode]
    of that text is [x] itself, so every BigInt field comes back as the same
    integer (its decimal text is read by [BigInt], never through a Number),
    and encoding what was decoded gives the same text again, character for
    character. *)
Theorem codec_round_trip (x : JsValue) :
  storable x = true ->
  exists text,
    encode x = Done (Some text)
    /\ decode text = Some x
    /\ (forall y, decode text = Some y -> encode y = Done (Some text)).
Proof.
  intros Hs. exists (json_text (tag_bigints "type" "BigInt" x)).
  pose proof (storable_json_value x Hs) as Hj.
  assert (He : encode x = Done (Some (json_text (tag_bigints "type" "BigInt" x)))).
  { rewrite encode_tagged. unfold JSON_stringify. apply stringify_json_value; [done|lia]. }
  assert (Hd : decode (json_text (tag_bigints "type" "BigInt" x)) = Some x).
  { unfold decode, JSON_parse. rewrite (parse_json_text_of _ Hj). by apply internalize_tagged. }
  split; [exact He|]. split; [exact Hd|].
  intros y Hy. rewrite Hd in Hy. by injection Hy as <-.
Qed.

Lemma tag_bigints_free kindKey tag value : has_bigint (tag_bigints kindKey tag value) = false.
Proof.
  induction value as [| |b|z|z|s|items IH|props IH] using JsValue_ind; try reflexivity.
  - simpl. induction IH as [|i items Hi _ IHl]; simpl; [done|]. by rewrite Hi, IHl.
  - simpl. induction IH as [|[k v] props Hi _ IHl]; simpl in *; [done|]. by rewrite Hi, IHl.
Qed.

(** C5, as amended (tagged BigInt).  [encode value] is the plain JSON text
    of the value in which every BigInt has been replaced by the object
    [{type: "BigInt", value: <decimal text>}]: no BigInt is left to be
    written as a number, and the decimal text is exact, [BigInt] reading it
    back as the same integer. *)
Theorem encode_tags_bigints (value : JsValue) :
  encode value = JSON_stringify (tag_bigints "type" "BigInt" value) no_replacer
  /\ has_bigint (tag_bigints "type" "BigInt" value) = false
  /\ (forall z, tag_bigints "type" "BigInt" (JsBigInt z)
               = JsObject [("type", JsString "BigInt"); ("value", JsString (decimal_of_Z z))]
               /\ StringToBigInt (decimal_of_Z z) = Some z).
Proof.
  split; [apply encode_tagged|]. split; [apply tag_bigints_free|].
  intros z. split; [reflexivity|apply StringToBigInt_decimal].
Qed.

(** ** The range argument *)

Lemma split_no_sep c s : includes c s = false -> split c s = [s].
Proof.
  induction s as [|a s IH]; simpl; [done|].
  intros H. apply orb_false_iff in H as [Ha Hs].
  rewrite (IH Hs), Ha. done.
Qed.















(** ** The cache *)

Lemma getShardedPath_spec n st :
  exists st', getShardedPath n st = ((compressed_path n, legacy_path n), st')
    /\ memCache st' = memCache st /\ files st' = files st /\ rpc_calls st' = rpc_calls st
    /\ (((shard_dir n ∈ dirs st) \/ is_Some (files st !! shard_dir n))
          /\ dirs st' = dirs st /\ new_events st st' [EvExists (shard_dir n)]
        \/ (shard_dir n ∉ dirs st /\ files st !! shard_dir n = None)
          /\ new_events st st' [EvExists (shard_dir n); EvMkdir (shard_dir n)]
          /\ dirs st' = (if mkdir_fails env (shard_dir n) then dirs st
                         else {[shard_dir n]} ∪ dirs st)).
Proof.
  unfold getShardedPath, bind, existsSync, bind, emit, ret, mkdirSync, bind, emit.
  cbn [fst snd trace dirs files memCache rpc_calls].
  fold (shard_dir n).
  destruct (bool_decide (shard_dir n ∈ dirs st)) eqn:Hd;
    [apply bool_decide_eq_true in Hd|apply bool_decide_eq_false in Hd].
  - eexists. split; [reflexivity|]. cbn. repeat split; try done. left. unfold new_events. cbn. auto.
  - destruct (bool_decide (is_Some (files st !! shard_dir n))) eqn:Hf;
      [apply bool_decide_eq_true in Hf|apply bool_decide_eq_false in Hf].
    + eexists. split; [reflexivity|]. cbn. repeat split; try done. left.
      unfold new_events. cbn. auto.
    + cbn. destruct (mkdir_fails env (shard_dir n)) eqn:Hm.
      * eexists. split; [reflexivity|]. cbn. repeat split; try done. right.
        unfold new_events. cbn. rewrite <- app_assoc. repeat split; try done.
        by apply eq_None_not_Some.
      * eexists. split; [reflexivity|]. cbn. repeat split; try done. right.
        unfold new_events. cbn. rewrite <- app_assoc. repeat split; try done.
        by apply eq_None_not_Some.
Qed.

Lemma Frame_refl n st : Frame n st st [].
Proof.
  split.
  - unfold new_events; by rewrite app_nil_r.
  - constructor.
  - auto.
  - set_solver.
Qed.

Lemma Frame_trans n st1 st2 st3 e1 e2 :
  Frame n st1 st2 e1 -> Frame n st2 st3 e2 -> Frame n st1 st3 (e1 ++ e2).
Proof.
  intros [H1 F1 K1 [D1 D1']] [H2 F2 K2 [D2 D2']]. split.
  - unfold new_events in *. by rewrite H2, H1, app_assoc.
  - by apply Forall_app.
  - intros p c Hp. destruct (K1 p c Hp) as [H|([c' Hc'] & Hr & Hw)].
    + apply K2, H.
    + right. destruct (K2 p c' Hc') as [H|(Hs & _)]; [|done]. rewrite H. eauto.
  - split; [by etrans|]. etrans; [exact D2'|]. set_solver.
Qed.

(** A step that only adds events allowed for the block and touches neither
    the files nor the directories. *)
Lemma Frame_events n st st' evs :
  new_events st st' evs -> Forall (block_event n) evs ->
  files st' = files st -> dirs st' = dirs st -> Frame n st st' evs.
Proof.
  intros He Hf Hfiles Hdirs. split; [done|done| |rewrite Hdirs; set_solver].
  intros p c Hp. left. by rewrite Hfiles.
Qed.

Lemma probe_event_block n e : probe_event n e -> block_event n e.
Proof. by destruct e. Qed.

Lemma probe_event_quiet n e :
  probe_event n e -> is_network_event e = false /\ (forall l, e <> EvLog l).
Proof. by destruct e. Qed.

Lemma new_events_app st st1 st2 e1 e2 :
  new_events st st1 e1 -> new_events st1 st2 e2 -> new_events st st2 (e1 ++ e2).
Proof. unfold new_events. intros H1 H2. by rewrite H2, H1, app_assoc. Qed.

Ltac eff_unfold :=
  unfold disk_probe, read_compressed, read_legacy, existsSync, readFileSync,
    execSync_unzstd, execSync_zstd, writeFileSync, mkdirSync, memCache_set, memCache_get,
    web3_eth_getBlock, sleep, console_log, bind, emit, ret;
  cbn [fst snd trace dirs files memCache rpc_calls].

Lemma probe_step_trans n st st1 st2 found :
  probe_step n st st1 None -> probe_step n st1 st2 found -> probe_step n st st2 found.
Proof.
  intros (F1 & D1 & R1 & M1 & e1 & T1 & P1) (F2 & D2 & R2 & M2 & e2 & T2 & P2).
  unfold probe_step. rewrite F2, D2, R2, M2, F1, D1, R1, M1. repeat split; try done.
  exists (e1 ++ e2)%list. split; [by eapply new_events_app|by apply Forall_app].
Qed.

Lemma existsSync_spec n p st :
  exists st', existsSync p st
              = (bool_decide (p ∈ dirs st) || bool_decide (is_Some (files st !! p)), st')
    /\ probe_step n st st' None.
Proof.
  eff_unfold. eexists. split; [reflexivity|]. unfold probe_step, new_events. cbn.
  repeat split; try done. exists [EvExists p]. split; [done|]. by repeat constructor.
Qed.

Lemma read_compressed_spec n st :
  exists st', read_compressed n (compressed_path n) st = (compressed_entry st n, st')
    /\ probe_step n st st' (compressed_entry st n).
Proof.
  unfold compressed_entry, decode, probe_step, new_events. eff_unfold.
  destruct (read_fails env (compressed_path n)).
  { assert (H : match files st !! compressed_path n with
                | Some _ => None | None => None end = @None JsValue)
      by (by destruct (files st !! compressed_path n)).
    rewrite H. eexists. split; [reflexivity|]. cbn. repeat split; try done.
    eexists. split; [reflexivity|]. by repeat constructor. }
  destruct (files st !! compressed_path n) as [data|]; cbn.
  2:{ eexists. split; [reflexivity|]. cbn. repeat split; try done.
      eexists. split; [reflexivity|]. by repeat constructor. }
  destruct (zstd_decompress env data) as [text|]; cbn.
  2:{ eexists. split; [reflexivity|]. cbn. repeat split; try done.
      eexists. split; [by rewrite <- app_assoc|]. by repeat constructor. }
  destruct (JSON_parse text reviver) as [block|]; cbn;
    (eexists; split; [reflexivity|]; cbn; repeat split; try done;
     eexists; split; [by rewrite <- app_assoc|]; by repeat constructor).
Qed.

Lemma read_legacy_spec n st :
  exists st', read_legacy n (legacy_path n) st = (legacy_entry st n, st')
    /\ probe_step n st st' (legacy_entry st n).
Proof.
  unfold legacy_entry, decode, probe_step, new_events. eff_unfold.
  destruct (read_fails env (legacy_path n)).
  { assert (H : match files st !! legacy_path n with
                | Some _ => None | None => None end = @None JsValue)
      by (by destruct (files st !! legacy_path n)).
    rewrite H. eexists. split; [reflexivity|]. cbn. repeat split; try done.
    eexists. split; [reflexivity|]. by repeat constructor. }
  destruct (files st !! legacy_path n) as [text|]; cbn.
  2:{ eexists. split; [reflexivity|]. cbn. repeat split; try done.
      eexists. split; [reflexivity|]. by repeat constructor. }
  destruct (JSON_parse text reviver) as [block|]; cbn;
    (eexists; split; [reflexivity|]; cbn; repeat split; try done;
     eexists; split; [reflexivity|]; by repeat constructor).
Qed.

Lemma probe_step_refl n st : probe_step n st st None.
Proof.
  unfold probe_step, new_events. repeat split; try done.
  exists []. by rewrite app_nil_r.
Qed.

Lemma entry_absent st p :
  bool_decide (p ∈ dirs st) || bool_decide (is_Some (files st !! p)) = false ->
  files st !! p = None.
Proof.
  intros H. apply orb_false_iff in H as [_ H]. apply bool_decide_eq_false in H.
  by apply eq_None_not_Some.
Qed.

Lemma disk_probe_spec n st :
  exists st', disk_probe n (compressed_path n) (legacy_path n) st = (disk_entry st n, st')
    /\ probe_step n st st' (disk_entry st n).
Proof.
  unfold disk_probe, disk_entry.
  destruct cacheDir_ready; [|exists st; split; [reflexivity|apply probe_step_refl]].
  assert (Hleg : forall st0, files st0 = files st ->
            exists st', (present <- existsSync (legacy_path n);;
                         if present then read_legacy n (legacy_path n) else ret None) st0
                        = (legacy_entry st n, st')
                        /\ probe_step n st0 st' (legacy_entry st n)).
  { intros st0 Hf. unfold bind at 1.
    destruct (existsSync_spec n (legacy_path n) st0) as (st1 & -> & Hs1).
    assert (Hle : legacy_entry st1 n = legacy_entry st n).
    { unfold legacy_entry. destruct Hs1 as (-> & _). by rewrite Hf. }
    destruct (_ || _) eqn:Hex.
    - destruct (read_legacy_spec n st1) as (st2 & -> & Hs2). rewrite Hle in *.
      eexists. split; [reflexivity|]. by eapply probe_step_trans.
    - apply entry_absent in Hex. unfold legacy_entry. rewrite <- Hf, Hex.
      eexists. split; [reflexivity|]. done. }
  destruct cacheDir_zstdAvailable.
  - unfold bind at 1. unfold bind at 1.
    destruct (existsSync_spec n (compressed_path n) st) as (st1 & -> & Hs1).
    assert (Hce : compressed_entry st1 n = compressed_entry st n).
    { unfold compressed_entry. destruct Hs1 as (-> & _). done. }
    destruct (_ || _) eqn:Hex.
    + destruct (read_compressed_spec n st1) as (st2 & -> & Hs2). rewrite Hce in *.
      destruct (compressed_entry st n) as [block|] eqn:Hc.
      * eexists. split; [reflexivity|]. by eapply probe_step_trans.
      * destruct (Hleg st2) as (st3 & -> & Hs3).
        { destruct Hs2 as (-> & _). by destruct Hs1 as (-> & _). }
        eexists. split; [reflexivity|].
        eapply probe_step_trans; [|exact Hs3]. by eapply probe_step_trans.
    + apply entry_absent in Hex.
      assert (Hnone : compressed_entry st n = None)
        by (unfold compressed_entry; by rewrite Hex).
      rewrite Hnone. unfold ret at 1.
      destruct (Hleg st1) as (st3 & -> & Hs3); [by destruct Hs1 as (-> & _)|].
      eexists. split; [reflexivity|]. by eapply probe_step_trans.
  - unfold bind at 1. unfold ret at 1.
    destruct (Hleg st eq_refl) as (st3 & -> & Hs3). eauto.
Qed.

Lemma save_event_block n e : save_event n e -> block_event n e.
Proof. by destruct e. Qed.

Lemma getShardedPath_Frame n st :
  exists st' evs, getShardedPath n st = ((compressed_path n, legacy_path n), st')
    /\ Frame n st st' evs /\ memCache st' = memCache st /\ files st' = files st
    /\ rpc_calls st' = rpc_calls st
    /\ Forall (probe_event n) evs /\ Forall (save_event n) evs.
Proof.
  destruct (getShardedPath_spec n st) as (st' & Heq & Hm & Hf & Hr & Hcases).
  assert (Hev : exists evs, new_events st st' evs /\ Forall (probe_event n) evs
                            /\ Forall (save_event n) evs).
  { destruct Hcases as [(_ & _ & He)|(_ & He & _)]; eexists; (split; [exact He|]);
      split; by repeat constructor. }
  destruct Hev as (evs & He & Hp & Hs).
  exists st', evs. repeat split; try done.
  - eapply Forall_impl; [exact Hp|]. apply probe_event_block.
  - intros p c Hpc. left. by rewrite Hf.
  - destruct Hcases as [(_ & -> & _)|(_ & _ & ->)]; [done|].
    destruct (mkdir_fails env (shard_dir n)); set_solver.
  - destruct Hcases as [(_ & -> & _)|(_ & _ & ->)]; [set_solver|].
    destruct (mkdir_fails env (shard_dir n)); set_solver.
Qed.

Lemma writeFileSync_Frame n p data st :
  cacheDir_ready = true -> (p = compressed_path n /\ cacheDir_zstdAvailable = true \/ p = legacy_path n) ->
  exists ok st', writeFileSync p data st = (ok, st') /\ Frame n st st' [EvWrite p]
    /\ memCache st' = memCache st /\ rpc_calls st' = rpc_calls st.
Proof.
  intros Hr Hp. eff_unfold.
  assert (Hev : Forall (block_event n) [EvWrite p]).
  { constructor; [|constructor]. simpl. tauto. }
  destruct data as [content|].
  2:{ eexists _, _. split; [reflexivity|]. split; [|done].
      eapply Frame_events; [reflexivity|exact Hev|done|done]. }
  destruct (_ || _).
  - eexists _, _. split; [reflexivity|]. split; [|done].
    eapply Frame_events; [reflexivity|exact Hev|done|done].
  - eexists _, _. split; [reflexivity|]. split; [|done]. split; cbn.
    + reflexivity.
    + exact Hev.
    + intros q c Hq. destruct (decide (p = q)) as [<-|Hne].
      * right. rewrite lookup_insert_eq. eauto.
      * left. by rewrite lookup_insert_ne.
    + set_solver.
Qed.

Lemma save_to_disk_Frame n jsonData st :
  cacheDir_ready = true ->
  exists st' evs, save_to_disk n jsonData st = (tt, st') /\ Frame n st st' evs
    /\ Forall (save_event n) evs
    /\ memCache st' = memCache st /\ rpc_calls st' = rpc_calls st.
Proof.
  intros Hr. unfold save_to_disk. unfold bind at 1.
  destruct (getShardedPath_Frame n st) as (st1 & e1 & -> & F1 & M1 & _ & R1 & _ & S1).
  assert (Wc : Forall (save_event n) [EvWrite (compressed_path n)])
    by (constructor; [simpl; tauto|constructor]).
  assert (Wl : Forall (save_event n) [EvWrite (legacy_path n)])
    by (constructor; [simpl; tauto|constructor]).
  destruct cacheDir_zstdAvailable eqn:Hz.
  - unfold bind at 1. unfold execSync_zstd, bind at 1, emit, ret.
    set (st2 := {| memCache := memCache st1; dirs := dirs st1; files := files st1;
                   rpc_calls := rpc_calls st1; trace := trace st1 ++ [EvZstd] |}).
    assert (F2 : Frame n st1 st2 [EvZstd]).
    { eapply Frame_events; [reflexivity| |done|done]. by repeat constructor. }
    assert (S2 : Forall (save_event n) [EvZstd]) by (by repeat constructor).
    destruct (zstd_compress env (default "" jsonData)) as [bytes|].
    + unfold bind at 1.
      destruct (writeFileSync_Frame n (compressed_path n) (Some bytes) st2 Hr)
        as (ok & st3 & -> & F3 & M3 & R3); [by left|].
      destruct ok.
      * eexists _, _. split; [reflexivity|].
        split; [eapply Frame_trans; [exact F1|]; eapply Frame_trans; [exact F2|exact F3]|].
        split; [by repeat apply Forall_app_2|]. by rewrite M3, R3.
      * unfold bind at 1.
        destruct (writeFileSync_Frame n (legacy_path n) jsonData st3 Hr)
          as (ok & st4 & -> & F4 & M4 & R4); [by right|].
        eexists _, _. split; [reflexivity|].
        split; [eapply Frame_trans; [exact F1|]; eapply Frame_trans; [exact F2|];
                eapply Frame_trans; [exact F3|exact F4]|].
        split; [by repeat apply Forall_app_2|]. by rewrite M4, R4, M3, R3.
    + unfold bind at 1. unfold bind at 1.
      destruct (writeFileSync_Frame n (legacy_path n) jsonData st2 Hr)
        as (ok & st4 & -> & F4 & M4 & R4); [by right|].
      eexists _, _. split; [reflexivity|].
      split; [eapply Frame_trans; [exact F1|]; eapply Frame_trans; [exact F2|exact F4]|].
      split; [by repeat apply Forall_app_2|]. by rewrite M4, R4.
  - unfold bind at 1.
    destruct (writeFileSync_Frame n (legacy_path n) jsonData st1 Hr)
      as (ok & st4 & -> & F4 & M4 & R4); [by right|].
    eexists _, _. split; [reflexivity|].
    split; [eapply Frame_trans; [exact F1|exact F4]|].
    split; [by repeat apply Forall_app_2|]. by rewrite M4, R4.
Qed.

Lemma filter_save_events n evs :
  Forall (save_event n) evs -> List.filter is_fetch_event evs = [].
Proof.
  induction 1 as [|e evs He _ IH]; [done|].
  destruct e; simpl in *; try done.
Qed.

Lemma fetch_loop_spec n budget : forall attempts st,
  (attempts <= 3)%nat -> (3 - attempts < budget)%nat ->
  exists st' evs,
    fetch_loop budget attempts n st
    = (Done (fetch_result n (rpc_calls st) (3 - attempts)), st')
    /\ Frame n st st' evs
    /\ List.filter is_fetch_event evs = schedule delays_after n (rpc_calls st) attempts (3 - attempts).
Proof.
  induction budget as [|budget IH]; intros attempts st Ha Hb; [lia|].
  cbn [fetch_loop].
  destruct (attempts <? 3)%nat eqn:Hlt; [apply Nat.ltb_lt in Hlt|apply Nat.ltb_ge in Hlt].
  2:{ replace (3 - attempts)%nat with 0%nat by lia. exists st, []. split; [reflexivity|].
      split; [apply Frame_refl|reflexivity]. }
  destruct (3 - attempts)%nat as [|rem] eqn:Hrem; [lia|].
  assert (Hrem' : (3 - S attempts)%nat = rem) by lia.
  unfold bind at 1. unfold web3_eth_getBlock, bind at 1, emit.
  cbn [fst snd trace dirs files memCache rpc_calls].
  set (st1 := {| memCache := memCache st; dirs := dirs st; files := files st;
                 rpc_calls := S (rpc_calls st); trace := trace st ++ [EvGetBlock n] |}).
  assert (F1 : Frame n st st1 [EvGetBlock n]).
  { eapply Frame_events; [reflexivity| |done|done]. by repeat constructor. }
  cbn [schedule fetch_result]. unfold classify.
  destruct (provider env (rpc_calls st) n) as [block|error].
  - fold (valid_block block). destruct (valid_block block) eqn:Hvalid.
    + unfold bind at 1. unfold memCache_set at 1.
      set (st2 := {| memCache := <[n:=block]> (memCache st1); dirs := dirs st1;
                     files := files st1; rpc_calls := rpc_calls st1; trace := trace st1 |}).
      assert (F2 : Frame n st1 st2 []).
      { eapply Frame_events; [|constructor|done|done]. unfold new_events. cbn.
        by rewrite app_nil_r. }
      destruct cacheDir_ready eqn:Hready.
      * destruct (encode_done block) as (jsonData & Henc & _). unfold encode in Henc.
        rewrite Henc. unfold bind at 1.
        destruct (save_to_disk_Frame n jsonData st2 Hready) as (st3 & e3 & -> & F3 & S3 & _).
        exists st3, ([EvGetBlock n] ++ [] ++ e3)%list. split; [reflexivity|].
        split; [eapply Frame_trans; [exact F1|]; eapply Frame_trans; [exact F2|exact F3]|].
        cbn. by rewrite (filter_save_events n e3 S3).
      * exists st2, ([EvGetBlock n] ++ [])%list. split; [reflexivity|].
        split; [eapply Frame_trans; [exact F1|exact F2]|]. reflexivity.
    + cbv zeta. unfold bind at 1. unfold sleep, emit. cbv beta.
      match goal with |- context [fetch_loop budget (S attempts) n ?s] =>
        set (st2 := s) end.
      assert (F2 : Frame n st1 st2 [EvSleep (backoff 30000 1000 (S attempts))]).
      { eapply Frame_events; [reflexivity| |done|done]. by repeat constructor. }
      destruct (IH (S attempts) st2 ltac:(lia) ltac:(lia)) as (st3 & e3 & -> & F3 & S3).
      rewrite Hrem' in *. change (rpc_calls st2) with (S (rpc_calls st)) in *.
      exists st3, ([EvGetBlock n] ++ [EvSleep (backoff 30000 1000 (S attempts))] ++ e3)%list.
      split; [reflexivity|].
      split; [eapply Frame_trans; [exact F1|]; eapply Frame_trans; [exact F2|exact F3]|].
      cbn. rewrite S3.
      unfold backoff. by replace (attempts + 1)%nat with (S attempts) by lia.
  - unfold bind at 1. unfold on_fetch_error. fold (rate_limited error).
    destruct (rate_limited error) eqn:Hrl.
    + unfold bind, sleep, emit. cbv beta iota zeta.
      match goal with |- context [fetch_loop budget (S attempts) n ?s] =>
        set (st2 := s) end.
      assert (F2 : Frame n st1 st2 [EvSleep (backoff 60000 5000 attempts);
                                    EvSleep (backoff 30000 1000 attempts)]).
      { eapply Frame_events; [|by repeat constructor|done|done].
        unfold new_events. cbn. by rewrite <- !app_assoc. }
      destruct (IH (S attempts) st2 ltac:(lia) ltac:(lia)) as (st3 & e3 & -> & F3 & S3).
      rewrite Hrem' in *. change (rpc_calls st2) with (S (rpc_calls st)) in *.
      eexists st3, _. split; [reflexivity|].
      split; [eapply Frame_trans; [exact F1|]; eapply Frame_trans; [exact F2|exact F3]|].
      cbn. by rewrite S3.
    + unfold bind, ret, sleep, emit. cbv beta iota zeta.
      match goal with |- context [fetch_loop budget (S attempts) n ?s] =>
        set (st2 := s) end.
      assert (F2 : Frame n st1 st2 [EvSleep (backoff 30000 1000 attempts)]).
      { eapply Frame_events; [|by repeat constructor|done|done]. reflexivity. }
      destruct (IH (S attempts) st2 ltac:(lia) ltac:(lia)) as (st3 & e3 & -> & F3 & S3).
      rewrite Hrem' in *. change (rpc_calls st2) with (S (rpc_calls st)) in *.
      eexists st3, _. split; [reflexivity|].
      split; [eapply Frame_trans; [exact F1|]; eapply Frame_trans; [exact F2|exact F3]|].
      cbn. by rewrite S3.
Qed.

(** *** [getBlock] tier by tier *)

Lemma disk_entry_files st st' n : files st' = files st -> disk_entry st' n = disk_entry st n.
Proof.
  intros H. unfold disk_entry, compressed_entry, legacy_entry. by rewrite H.
Qed.

Lemma getBlock_memory_hit n st block :
  memCache st !! n = Some block -> getBlock n st = (Done block, st).
Proof.
  intros H. unfold getBlock, bind, memCache_get. by rewrite H.
Qed.

Lemma getBlock_memory_miss n st :
  memCache st !! n = None ->
  exists st1 e1,
    Frame n st st1 e1 /\ Forall (probe_event n) e1 /\ rpc_calls st1 = rpc_calls st
    /\ files st1 = files st
    /\ ((mkdir_fails env (shard_dir n) = false -> files st !! shard_dir n = None ->
         shard_dir n ∈ dirs st1))
    /\ match disk_entry st n with
       | Some block => getBlock n st = (Done block, st1)
       | None =>
           exists st2 e2,
             getBlock n st = (Done (fetch_result n (rpc_calls st) 3), st2)
             /\ Frame n st1 st2 e2
             /\ List.filter is_fetch_event e2 = schedule delays_after n (rpc_calls st) 0 3
       end.
Proof.
  intros Hmiss.
  destruct (getShardedPath_spec n st) as (sta & Heq & Hma & Hfa & Hra & Hcases).
  destruct (getShardedPath_Frame n st) as (sta' & ea & Heq' & Fa & _ & _ & _ & Pa & _).
  rewrite Heq in Heq'. injection Heq' as <-.
  destruct (disk_probe_spec n sta) as (stb & Hprobe & Hpb).
  assert (Hg : getBlock n st = match disk_entry sta n with
                               | Some block => (Done block, stb)
                               | None => fetch_loop 4 0 n stb
                               end).
  { unfold getBlock. unfold bind at 1. unfold memCache_get.
    rewrite Hmiss. unfold bind at 1. rewrite Heq. unfold bind at 1. rewrite Hprobe.
    by destruct (disk_entry sta n). }
  assert (Fb := Hpb). destruct Fb as (Hfb & Hdb & Hrb & Hmb & eb & Tb & Pb).
  rewrite (disk_entry_files st sta n Hfa) in *.
  exists stb, (ea ++ eb)%list. split.
  { eapply Frame_trans; [exact Fa|]. eapply Frame_events; eauto.
    eapply Forall_impl; [exact Pb|]. apply probe_event_block. }
  split; [by apply Forall_app|]. split; [by rewrite Hrb|]. split; [by rewrite Hfb|]. split.
  { intros Hmk Hnf. rewrite Hdb.
    destruct Hcases as [([Hin|[x Hx]] & Hd & _)|(_ & _ & ->)];
      [by rewrite Hd|congruence|].
    rewrite Hmk. set_solver. }
  destruct (disk_entry st n) as [block|]; [exact Hg|].
  destruct (fetch_loop_spec n 4 0 stb ltac:(lia) ltac:(lia)) as (st2 & e2 & Hloop & F2 & S2).
  rewrite Hrb, Hra in Hloop, S2. exists st2, e2. rewrite Hg. done.
Qed.

Lemma new_events_unique st st' e1 e2 :
  new_events st st' e1 -> new_events st st' e2 -> e1 = e2.
Proof. unfold new_events. intros H1 H2. rewrite H1 in H2. by apply app_inv_head in H2. Qed.

Lemma new_events_refl st evs : new_events st st evs -> evs = [].
Proof.
  intros H. apply (new_events_unique st st); [done|].
  unfold new_events. by rewrite app_nil_r.
Qed.

Lemma probe_events_quiet n evs :
  Forall (probe_event n) evs -> Forall (fun e => is_network_event e = false) evs.
Proof. intros H. eapply Forall_impl; [exact H|]. intros e He. by destruct e. Qed.

Lemma block_events_no_lines n evs : Forall (block_event n) evs -> address_lines evs = [].
Proof.
  induction 1 as [|e evs He _ IH]; [done|]. unfold address_lines in *. simpl.
  rewrite IH. by destruct e.
Qed.


(** C2 (tier order).  A block resident in the memory tier is returned with
    the state unchanged: the call adds no event, so there is no disk access
    and no request.  On a memory miss, when the disk tier holds an entry of
    the block that is read and decoded in this run ([disk_entry]), that
    block is returned and no event of the call is a provider call.  A call
    whose events include a provider call has missed both tiers. *)
Theorem cache_tier_order (n : Z) (st : State) :
  (forall block, memCache st !! n = Some block -> getBlock n st = (Done block, st))
  /\ (forall block, memCache st !! n = None -> disk_entry st n = Some block ->
      exists st' evs, getBlock n st = (Done block, st') /\ new_events st st' evs
        /\ Forall (fun e => is_network_event e = false) evs)
  /\ (forall r st' evs, getBlock n st = (r, st') -> new_events st st' evs ->
      Exists (fun e => is_network_event e = true) evs ->
      memCache st !! n = None /\ disk_entry st n = None).
Proof.
  split; [apply getBlock_memory_hit|]. split.
  - intros block Hmiss Hdisk.
    destruct (getBlock_memory_miss n st Hmiss) as (st1 & e1 & F1 & P1 & _ & _ & _ & Hg).
    rewrite Hdisk in Hg. exists st1, e1. split; [exact Hg|].
    split; [apply F1|]. by eapply probe_events_quiet.
  - intros r st' evs Hg Hev Hex.
    destruct (memCache st !! n) as [block|] eqn:Hm.
    + rewrite (getBlock_memory_hit n st block Hm) in Hg. injection Hg as <- <-.
      apply new_events_refl in Hev as ->. by apply Exists_nil in Hex.
    + split; [done|].
      destruct (getBlock_memory_miss n st Hm) as (st1 & e1 & F1 & P1 & _ & _ & _ & Hg1).
      destruct (disk_entry st n) as [block|]; [|done].
      rewrite Hg1 in Hg. injection Hg as <- <-.
      rewrite (new_events_unique _ _ _ _ Hev (fr_trace _ _ _ _ F1)) in Hex.
      apply Exists_exists in Hex as (e & Hin & He).
      apply probe_events_quiet in P1. rewrite Forall_forall in P1.
      specialize (P1 e Hin). congruence.
Qed.

Lemma filter_request_fetch evs :
  List.filter is_request evs = List.filter is_request (List.filter is_fetch_event evs).
Proof.
  induction evs as [|e evs IH]; [done|]. destruct e; simpl; by rewrite ?IH.
Qed.

Lemma filter_fetch_probe n evs :
  Forall (probe_event n) evs -> List.filter is_fetch_event evs = [].
Proof. induction 1 as [|e evs He _ IH]; [done|]. destruct e; simpl in *; done. Qed.

Lemma filter_request_sleeps delays rest :
  List.filter is_request (map EvSleep delays ++ rest) = List.filter is_request rest.
Proof. induction delays as [|d delays IH]; [done|]. simpl. exact IH. Qed.

Lemma always_failing n :
  (forall c, classify (provider env c n) <> None) ->
  forall remaining c k,
    fetch_result n c remaining = JsNull
    /\ List.filter is_request (schedule delays_after n c k remaining) = repeat (EvGetBlock n) remaining.
Proof.
  intros Hfail. induction remaining as [|remaining IH]; intros c k; [done|].
  specialize (Hfail c). destruct (IH (S c) (S k)) as [IHr IHs]. split.
  - simpl. unfold classify in Hfail.
    destruct (provider env c n) as [block|error]; [|exact IHr].
    by destruct (valid_block block).
  - cbn [schedule List.filter is_request repeat]. f_equal.
    destruct (classify (provider env c n)) as [class|]; [|done].
    by rewrite filter_request_sleeps.
Qed.

(** C3 (retry ceiling).  When both cache tiers miss and every answer of the
    provider for block [n] is a failure (a rejection, or a value that is not
    a block with transactions), [getBlock n] sends exactly three requests and
    returns [null] without throwing; [main] prints no address for the block
    and its loop goes on with [n + 1]. *)
Theorem retry_ceiling (n : Z) (st : State) (count : nat) :
  memCache st !! n = None -> disk_entry st n = None ->
  (forall c, classify (provider env c n) <> None) ->
  exists st' evs,
    getBlock n st = (Done JsNull, st') /\ new_events st st' evs
    /\ List.filter is_request evs = [EvGetBlock n; EvGetBlock n; EvGetBlock n]
    /\ address_lines evs = []
    /\ process_block n st = (Done tt, st')
    /\ block_loop (S count) n st = block_loop count (n + 1) st'.
Proof.
  intros Hmiss Hdisk Hfail.
  destruct (getBlock_memory_miss n st Hmiss) as (st1 & e1 & F1 & P1 & _ & _ & _ & Hg).
  rewrite Hdisk in Hg. destruct Hg as (st2 & e2 & Hg & F2 & S2).
  destruct (always_failing n Hfail 3 (rpc_calls st) 0) as [Hres Hreq].
  rewrite Hres in Hg. pose proof (Frame_trans _ _ _ _ _ _ F1 F2) as F.
  assert (Hp : process_block n st = (Done tt, st2)).
  { unfold process_block, bind. by rewrite Hg. }
  exists st2, (e1 ++ e2)%list. split; [exact Hg|]. split; [apply F|]. split.
  { rewrite filter_request_fetch, List.filter_app, (filter_fetch_probe n e1 P1), S2. exact Hreq. }
  split; [by eapply block_events_no_lines, F|]. split; [exact Hp|].
  cbn [block_loop]. unfold bind at 1. by rewrite Hp.
Qed.

(** C4, as amended (backoff).  On a fetch (both cache tiers missing) the
    requests and delays of [getBlock n] are exactly [schedule delays_after]:
    at most three requests and, after the failure of the attempt with
    0-based index [k], one delay of min(30 s, 1 s * 2^(k+1)) for an empty
    result; a delay of min(60 s, 5 s * 2^k) followed by a second delay of
    min(30 s, 1 s * 2^k) for a rejection with status 429 or 529; one delay of
    min(30 s, 1 s * 2^k) for any other rejection.  The third failure is
    followed by its delays as well. *)
Theorem backoff_schedule (n : Z) (st : State) :
  memCache st !! n = None -> disk_entry st n = None ->
  exists r st' evs,
    getBlock n st = (r, st') /\ new_events st st' evs
    /\ List.filter is_fetch_event evs = schedule delays_after n (rpc_calls st) 0 3.
Proof.
  intros Hmiss Hdisk.
  destruct (getBlock_memory_miss n st Hmiss) as (st1 & e1 & F1 & P1 & _ & _ & _ & Hg).
  rewrite Hdisk in Hg. destruct Hg as (st2 & e2 & Hg & F2 & S2).
  pose proof (Frame_trans _ _ _ _ _ _ F1 F2) as F.
  eexists _, st2, (e1 ++ e2)%list. split; [exact Hg|]. split; [apply F|].
  by rewrite List.filter_app, (filter_fetch_probe n e1 P1), S2.
Qed.

(** C6, as amended (disk entries).  [getBlock] deletes no file.  A file
    that existed before the call keeps its content, except that after a
    memory miss the call may overwrite an entry of the requested block which
    it could not read and decode itself: the compressed entry when it failed
    as compressed data, the uncompressed entry when it failed as JSON
    text. *)
Theorem disk_entries_kept (n : Z) (st : State) (r : Outcome JsValue) (st' : State)
    (p : Path) (c : string) :
  getBlock n st = (r, st') -> files st !! p = Some c ->
  files st' !! p = Some c
  \/ (is_Some (files st' !! p) /\ memCache st !! n = None
      /\ (p = compressed_path n /\ compressed_entry st n = None
          \/ p = legacy_path n /\ legacy_entry st n = None)).
Proof.
  intros Hg Hp. destruct (memCache st !! n) as [block|] eqn:Hm.
  { rewrite (getBlock_memory_hit n st block Hm) in Hg. injection Hg as <- <-. by left. }
  destruct (getBlock_memory_miss n st Hm) as (st1 & e1 & F1 & P1 & _ & Hf1 & _ & Hg1).
  destruct (disk_entry st n) as [block|] eqn:Hdisk.
  { rewrite Hg1 in Hg. injection Hg as <- <-. left. by rewrite Hf1. }
  destruct Hg1 as (st2 & e2 & Hg2 & F2 & _). rewrite Hg2 in Hg. injection Hg as <- <-.
  destruct (fr_files _ _ _ _ (Frame_trans _ _ _ _ _ _ F1 F2) p c Hp)
    as [H|(Hs & Hr & Hw)]; [by left|].
  right. split; [exact Hs|]. split; [done|].
  unfold disk_entry in Hdisk. rewrite Hr in Hdisk.
  destruct Hw as [[-> Hz]| ->].
  - left. split; [done|]. rewrite Hz in Hdisk. by destruct (compressed_entry st n).
  - right. split; [done|]. by destruct (if cacheDir_zstdAvailable then compressed_entry st n else None).
Qed.
















End Script.

(** ** The script on sample data *)

Lemma codec_round_trip_witness :
  exists text,
    encode big_block = Done (Some text)
    /\ decode text = Some big_block
    /\ (forall y, decode text = Some y -> encode y = Done (Some text)).
Proof. apply (codec_round_trip big_block). vm_compute. reflexivity. Defined.

Lemma encode_kind_bigint_refuted :
  encode (JsObject [("value", JsBigInt 5)])
  <> JSON_stringify (tag_bigints "kind" "bigint" (JsObject [("value", JsBigInt 5)])) no_replacer.
Proof. vm_compute. discriminate. Qed.



Lemma retry_ceiling_witness :
  exists st' evs,
    getBlock (sample_env rate_limiting) ["cache"] true true 7 (initial_state ∅ ∅)
    = (Done JsNull, st')
    /\ new_events (initial_state ∅ ∅) st' evs
    /\ List.filter is_request evs = [EvGetBlock 7; EvGetBlock 7; EvGetBlock 7]
    /\ address_lines evs = []
    /\ process_block (sample_env rate_limiting) ["cache"] true true 7 (initial_state ∅ ∅)
       = (Done tt, st')
    /\ block_loop (sample_env rate_limiting) ["cache"] true true 2 7 (initial_state ∅ ∅)
       = block_loop (sample_env rate_limiting) ["cache"] true true 1 (7 + 1) st'.
Proof.
  apply (retry_ceiling (sample_env rate_limiting) ["cache"] true true 7 (initial_state ∅ ∅) 1).
  - reflexivity.
  - reflexivity.
  - intros c. discriminate.
Defined.

Lemma backoff_schedule_witness :
  exists r st' evs,
    getBlock (sample_env rate_limiting) ["cache"] true true 7 (initial_state ∅ ∅) = (r, st')
    /\ new_events (initial_state ∅ ∅) st' evs
    /\ List.filter is_fetch_event evs
       = schedule (sample_env rate_limiting) delays_after 7 0 0 3.
Proof.
  apply (backoff_schedule (sample_env rate_limiting) ["cache"] true true 7 (initial_state ∅ ∅)).
  - reflexivity.
  - reflexivity.
Defined.

Lemma one_delay_per_failure_refuted :
  List.filter is_fetch_event
    (trace (snd (getBlock (sample_env rate_limiting) ["cache"] true true 7 (initial_state ∅ ∅))))
  <> schedule (sample_env rate_limiting) table_delay 7 0 0 3
  /\ List.filter is_fetch_event
       (trace (snd (getBlock (sample_env no_such_block) ["cache"] true true 7 (initial_state ∅ ∅))))
     <> schedule (sample_env no_such_block) table_delay 7 0 0 3.
Proof. split; vm_compute; discriminate. Qed.

Lemma disk_entries_kept_witness :
  files (snd (getBlock (sample_env chain) ["cache"] true false 7 corrupt_cache))
    !! legacy_path ["cache"] 7 = Some "not json"
  \/ (is_Some (files (snd (getBlock (sample_env chain) ["cache"] true false 7 corrupt_cache))
                 !! legacy_path ["cache"] 7)
      /\ memCache corrupt_cache !! 7%Z = None
      /\ (legacy_path ["cache"] 7 = compressed_path ["cache"] 7
          /\ compressed_entry (sample_env chain) ["cache"] corrupt_cache 7 = None
          \/ legacy_path ["cache"] 7 = legacy_path ["cache"] 7
             /\ legacy_entry (sample_env chain) ["cache"] corrupt_cache 7 = None)).
Proof.
  apply (disk_entries_kept (sample_env chain) ["cache"] true false 7 corrupt_cache
           (fst (getBlock (sample_env chain) ["cache"] true false 7 corrupt_cache))).
  - vm_compute. reflexivity.
  - vm_compute. reflexivity.
Defined.

Lemma append_only_refuted :
  files corrupt_cache !! legacy_path ["cache"] 7 = Some "not json"
  /\ files (snd (getBlock (sample_env chain) ["cache"] true false 7 corrupt_cache))
       !! legacy_path ["cache"] 7
     <> Some "not json".
Proof. split; [reflexivity|]. vm_compute. discriminate. Qed.





Example scenario_100_102 :
  fst (script (sample_env chain) ["cache"] true true (argv_for "100-102") (Some "key")
         (initial_state ∅ ∅)) = Done 0%Z
  /\ address_lines
       (trace (snd (script (sample_env chain) ["cache"] true true (argv_for "100-102") (Some "key")
                      (initial_state ∅ ∅))))
     = [JsString "0xa100"; JsString "0xb100"; JsString "0xa102"; JsString "0xb102"].
Proof. split; vm_compute; reflexivity. Qed.

Lemma cache_tier_order_witness :
  exists st' evs,
    getBlock (sample_env chain) ["cache"] true false 100 warm_cache
    = (Done (sample_block 100 [sample_tx "0xa100" "0xb100"]), st')
    /\ new_events warm_cache st' evs
    /\ Forall (fun e => is_network_event e = false) evs.
Proof.
  apply (proj1 (proj2 (cache_tier_order (sample_env chain) ["cache"] true false 100 warm_cache))).
  - reflexivity.
  - vm_compute. reflexivity.
Defined.
